(** * De-identification of DICOM sessions: a shallow embedding of
      [dicom_anonymizer.py] and the properties of its session processing.

    The development follows the source file top-down:
    - the Python built-ins the program relies on ([str.zfill], [str.split],
      [str.strip], [os.path.join], ["%04d" % x], [re.sub], [re.search]);
    - the pydicom record ([Dataset], [FileDataset]) as far as the program
      touches it;
    - [extract_id_sex_age], [anonymise], [validate_checksum],
      [process_folder] and the work list of [main];
    - the vocabulary of the statements and the data of the worked examples;
    - the lemmas and the theorems.

    How the program is modelled:
    - a Python string is a [string] of characters with codes below 256;
      paths are POSIX paths;
    - a record is the list of its elements (tag, value representation,
      value), a value being [None], a text or a sequence of nested records;
      a text value is stored as the program assigns it;
    - an exception is a value of [Exc]; a function that can raise returns a
      sum, and the code inside the [try] of [process_folder] lives in the
      monad [M] of a world and an exception;
    - the clock, the reading and writing of files, the creation of
      directories, the directory walk, the regular-expression engine on the
      patterns the program does not fix, and the text of an exception are
      the fields of [Env]; what a run does to its surroundings is recorded
      in [World];
    - the loop that waits for the clock is bounded by [fuel], and
      [process_folder] is [None] only if the bound is reached;
    - [Pool.map] hands every item of the work list to [process_folder] on
      its own; the interleaving of the workers is not modelled. *)

From Stdlib Require Import Bool Arith Lia List NArith.
From Stdlib Require Import Ascii String DecimalString DecimalNat.
From Stdlib Require DecimalFacts.
From Stdlib Require Import Permutation Sorted Mergesort Orders.
Import ListNotations.

Local Open Scope list_scope.
Local Open Scope string_scope.

(** ** Python strings *)

Module Py.

(** [str.isdigit] on one character, restricted to the ASCII digits that the
    class [\d] and the timestamp use. *)
Definition is_digit (c : ascii) : bool :=
  match c with
  | "0" | "1" | "2" | "3" | "4" | "5" | "6" | "7" | "8" | "9" => true
  | _ => false
  end%char.

(** Whitespace as [str.split()] and [str.strip()] see it, for code points
    below 256: TAB..CR, FS..US, space, NEL and NBSP. *)
Definition is_space (c : ascii) : bool :=
  let n := nat_of_ascii c in
  (Nat.leb 9 n && Nat.leb n 13) || (Nat.leb 28 n && Nat.leb n 32)
  || Nat.eqb n 133 || Nat.eqb n 160.

Definition is_empty (s : string) : bool :=
  match s with EmptyString => true | String _ _ => false end.

Fixpoint all_chars (p : ascii -> bool) (s : string) : bool :=
  match s with
  | EmptyString => true
  | String c s' => p c && all_chars p s'
  end.

Fixpoint repeat_char (c : ascii) (n : nat) : string :=
  match n with
  | O => EmptyString
  | S k => String c (repeat_char c k)
  end.

(** [s[n:]] *)
Fixpoint drop (n : nat) (s : string) : string :=
  match n, s with
  | O, _ => s
  | S _, EmptyString => EmptyString
  | S k, String _ s' => drop k s'
  end.

(** [sub in s] *)
Fixpoint contains (sub s : string) : bool :=
  prefix sub s ||
  match s with
  | EmptyString => false
  | String _ s' => contains sub s'
  end.

(** [str.zfill(width)]: zeros are inserted after a leading sign. *)
Definition zfill (width : nat) (s : string) : string :=
  let zeros := repeat_char "0" (width - length s) in
  match s with
  | String c s' =>
      if (Ascii.eqb c "+" || Ascii.eqb c "-")%bool
      then String c (zeros ++ s')
      else zeros ++ s
  | EmptyString => zeros
  end.

(** [str.split()] with no argument: maximal runs of non-whitespace. *)
Fixpoint split_from (cur : string) (s : string) : list string :=
  match s with
  | EmptyString => if is_empty cur then [] else [cur]
  | String c s' =>
      if is_space c
      then (if is_empty cur then split_from "" s' else cur :: split_from "" s')
      else split_from (cur ++ String c "") s'
  end.

Definition split (s : string) : list string := split_from "" s.

Fixpoint lstrip (s : string) : string :=
  match s with
  | EmptyString => EmptyString
  | String c s' => if is_space c then lstrip s' else s
  end.

Fixpoint rstrip (s : string) : string :=
  match s with
  | EmptyString => EmptyString
  | String c s' =>
      let r := rstrip s' in
      if is_space c && is_empty r then EmptyString else String c r
  end.

Definition strip (s : string) : string := lstrip (rstrip s).

(** [str(n)] for a natural number, and ["%04d" % n]. *)
Definition str_of_nat (n : nat) : string :=
  NilEmpty.string_of_uint (Nat.to_uint n).

Definition fmt_04d (n : nat) : string := zfill 4 (str_of_nat n).

(** [os.path.join(a, b)] of [posixpath] for two components. *)
Fixpoint ends_with_slash (a : string) : bool :=
  match a with
  | EmptyString => false
  | String c EmptyString => Ascii.eqb c "/"
  | String _ a' => ends_with_slash a'
  end.

Definition path_join (a b : string) : string :=
  if prefix "/" b then b
  else if is_empty a || ends_with_slash a then a ++ b
  else a ++ "/" ++ b.

End Py.

(** ** The regular expressions of the program *)

Module Re.
Import Py.

(** The special characters of Python's [re] syntax. *)
Definition is_meta (c : ascii) : bool :=
  match c with
  | "." | "^" | "$" | "*" | "+" | "?" | "{" | "}"
  | "[" | "]" | "\" | "|" | "(" | ")" => true
  | _ => false
  end%char.

(** A pattern without special characters matches itself only. *)
Definition is_literal (pat : string) : bool :=
  all_chars (fun c => negb (is_meta c)) pat.

(** A replacement text without backslash is inserted as it is. *)
Definition is_plain_repl (repl : string) : bool :=
  all_chars (fun c => negb (Ascii.eqb c "\")) repl.

(** [re.sub(pat, repl, s)] for a non-empty literal [pat]: the occurrences are
    found left to right and do not overlap.  [skip] counts the characters of
    the current occurrence that are still to be passed over. *)
Fixpoint sub_scan (pat repl : string) (skip : nat) (s : string) : string :=
  match s with
  | EmptyString => EmptyString
  | String c s' =>
      match skip with
      | S k => sub_scan pat repl k s'
      | O =>
          if prefix pat s
          then repl ++ sub_scan pat repl (length pat - 1) s'
          else String c (sub_scan pat repl 0 s')
      end
  end.

(** [re.sub('', repl, s)]: the empty pattern matches before every character
    and at the end. *)
Fixpoint sub_empty (repl : string) (s : string) : string :=
  match s with
  | EmptyString => repl
  | String c s' => repl ++ String c (sub_empty repl s')
  end.

Definition sub_literal (pat repl s : string) : string :=
  if is_empty pat then sub_empty repl s else sub_scan pat repl 0 s.

(** [re.sub] with the pattern [DICOM] followed by a group of any characters
    (dot, star) and the empty replacement: every occurrence of [DICOM] is
    removed together with the rest of its line (the dot does not match a
    newline). *)
Definition is_newline (c : ascii) : bool := Ascii.eqb c "010".

Fixpoint sub_DICOM_tail (in_match : bool) (s : string) : string :=
  match s with
  | EmptyString => EmptyString
  | String c s' =>
      if in_match
      then (if is_newline c then String c (sub_DICOM_tail false s')
            else sub_DICOM_tail true s')
      else if prefix "DICOM" s then sub_DICOM_tail true s'
      else String c (sub_DICOM_tail false s')
  end.

(** The longest run of digits at the head of [s], and what follows it. *)
Fixpoint span_digits (s : string) : string * string :=
  match s with
  | EmptyString => (EmptyString, EmptyString)
  | String c s' =>
      if is_digit c
      then let (d, r) := span_digits s' in (String c d, r)
      else (EmptyString, s)
  end.

(** One alternative [\d+ X \d+] anchored at the head of [s]; the result is
    the matched text.  Both [\d+] are greedy; a shorter first run would be
    followed by a digit and not by the space, so no backtracking succeeds
    where the longest run fails. *)
Definition match_alt (x : ascii) (s : string) : option string :=
  let (a, r) := span_digits s in
  if is_empty a then None
  else match r with
       | String sp1 (String y (String sp2 r')) =>
           if Ascii.eqb sp1 " " && Ascii.eqb y x && Ascii.eqb sp2 " "
           then let (b, _) := span_digits r' in
                if is_empty b then None
                else Some (a ++ String " " (String x (String " " b)))
           else None
       | _ => None
       end.

(** [\d+ F \d+|\d+ M \d+] anchored at the head of [s]: the alternatives are
    tried in order. *)
Definition match_here (s : string) : option string :=
  match match_alt "F" s with
  | Some m => Some m
  | None => match_alt "M" s
  end.

(** [re.search(r'\d+ F \d+|\d+ M \d+', s)]: the leftmost position with a
    match; [None] when there is none.  The result is [group(0)]. *)
Fixpoint search_id_sex_age (s : string) : option string :=
  match match_here s with
  | Some m => Some m
  | None =>
      match s with
      | EmptyString => None
      | String _ s' => search_id_sex_age s'
      end
  end.

End Re.

(** ** The metadata record (pydicom's [Dataset] and [FileDataset]) *)

Module Dicom.

(** A standard element is addressed by its dictionary keyword, which pydicom
    resolves one-to-one to a tag of even group; a private element has no
    keyword and is known by its tag (odd group). *)
Inductive Key : Type :=
  | Std (keyword : string)
  | Private (group element : N).

Definition key_eqb (a b : Key) : bool :=
  match a, b with
  | Std x, Std y => String.eqb x y
  | Private g e, Private g' e' => N.eqb g g' && N.eqb e e'
  | _, _ => false
  end.

Definition is_private (k : Key) : bool :=
  match k with Std _ => false | Private _ _ => true end.

#[local] Set Warnings "-register-all".

(** The value of an element: absent ([None]), a text, or a sequence of
    nested records.  An element is a tag, its value representation and its
    value. *)
Inductive Value : Type :=
  | VNone
  | VStr (s : string)
  | VSeq (items : list (list (Key * string * Value))).

Definition DataElement : Type := (Key * string * Value)%type.
Definition Dataset : Type := list DataElement.

Definition tag (e : DataElement) : Key := fst (fst e).
Definition VR (e : DataElement) : string := snd (fst e).
Definition value (e : DataElement) : Value := snd e.

(** [FileDataset]: the record [dcmread] returns, with its file meta
    information group. *)
Record FileDataset : Type := mkFileDataset {
  elements : Dataset;
  file_meta : Dataset
}.

(** [empty_value_for_VR]: what [DataElement.clear()] stores. *)
Definition text_VRs : list string :=
  ["AE"; "AS"; "CS"; "DA"; "DT"; "LO"; "LT"; "PN"; "SH"; "ST"; "TM"; "UC";
   "UI"; "UR"; "UT"].

Definition empty_value_for_VR (vr : string) : Value :=
  if String.eqb vr "SQ" then VSeq []
  else if existsb (String.eqb vr) text_VRs then VStr ""
  else VNone.

(** [k in d] *)
Definition contains_key (k : string) (d : Dataset) : bool :=
  existsb (fun e => key_eqb (tag e) (Std k)) d.

(** [d[k]] for reading: the element, if there is one. *)
Definition get (k : string) (d : Dataset) : option DataElement :=
  find (fun e => key_eqb (tag e) (Std k)) d.

(** [d[k].value = v] on a record that has [k]. *)
Definition set_value (k : string) (v : Value) (d : Dataset) : Dataset :=
  map (fun e => if key_eqb (tag e) (Std k) then (tag e, VR e, v) else e) d.

(** [d[k].clear()] on a record that has [k]. *)
Definition clear (k : string) (d : Dataset) : Dataset :=
  map (fun e => if key_eqb (tag e) (Std k)
                then (tag e, VR e, empty_value_for_VR (VR e)) else e) d.

(** [del d[k]] on a record that has [k], and [d.pop(k, None)] on any. *)
Definition remove (k : string) (d : Dataset) : Dataset :=
  filter (fun e => negb (key_eqb (tag e) (Std k))) d.

(** [Dataset.remove_private_tags]: [walk] visits every element, deletes the
    private ones and descends into the sequences that remain. *)
Fixpoint strip_private_value (v : Value) : Value :=
  match v with
  | VNone => VNone
  | VStr s => VStr s
  | VSeq items =>
      VSeq (map (fix strip_ds (d : list (Key * string * Value)) :=
                   match d with
                   | [] => []
                   | (k, vr, x) :: r =>
                       if is_private k then strip_ds r
                       else (k, vr, strip_private_value x) :: strip_ds r
                   end) items)
  end.

Fixpoint remove_private_tags (d : Dataset) : Dataset :=
  match d with
  | [] => []
  | (k, vr, x) :: r =>
      if is_private k then remove_private_tags r
      else (k, vr, strip_private_value x) :: remove_private_tags r
  end.

End Dicom.

(** ** Exceptions, the outside world and the log *)

Import Py Re Dicom.

(** The exceptions the program can meet: those Python raises on the
    program's own operations, and those raised inside the black boxes (file
    reading and writing, directory creation, the regular-expression
    compiler), which carry their text. *)
Inductive Exc : Type :=
  | KeyError (key : string)
  | AttributeError (what : string)
  | IndexError (what : string)
  | UnboundLocalError (variable : string)
  | LibraryError (text : string).

Inductive Level : Type := ERROR | INFO.

(** What a run leaves behind: the number of clock readings taken, the
    directories created, the files written in full, the destinations a
    failed write left behind as incomplete files, and the lines of the
    log. *)
Record World : Type := mkWorld {
  ticks : nat;
  dirs : list string;
  written : list (string * FileDataset);
  incomplete : list string;
  log : list (Level * string)
}.

Definition initial_world : World := mkWorld 0 [] [] [] [].

Record DateTime : Type := mkDateTime {
  year : nat; month : nat; day : nat;
  hour : nat; minute : nat; second : nat
}.

(** What the program gets from outside its own text.  The answers of the
    file system may depend on everything done so far. *)
Record Env : Type := mkEnv {
  (** [datetime.now()], reading after reading *)
  now : nat -> DateTime;
  (** [dcmread(path)] *)
  dcmread : World -> string -> Exc + FileDataset;
  (** [os.makedirs(path, exist_ok=True)]: the exception, if it raises *)
  makedirs_error : World -> string -> option Exc;
  (** [record.save_as(path)]: the exception, if it raises, and whether the
      destination had been opened by then, which leaves an incomplete file
      there *)
  save_error : World -> string -> FileDataset -> option (Exc * bool);
  (** reading the written file back in [validate_checksum] *)
  reread_error : World -> string -> option Exc;
  (** [re.sub] on patterns or replacements with special characters *)
  regex_sub : string -> string -> string -> Exc + string;
  (** [os.walk(path)] *)
  os_walk : string -> list (string * list string * list string);
  (** [str(e)], the text that ['%s' % e] and the f-strings show *)
  exc_text : Exc -> string
}.

Definition tick (w : World) : World :=
  mkWorld (S (ticks w)) (dirs w) (written w) (incomplete w) (log w).

Definition add_dir (p : string) (w : World) : World :=
  mkWorld (ticks w) (dirs w ++ [p])%list (written w) (incomplete w) (log w).

Definition add_file (p : string) (d : FileDataset) (w : World) : World :=
  mkWorld (ticks w) (dirs w) (written w ++ [(p, d)])%list (incomplete w)
          (log w).

Definition add_incomplete (p : string) (w : World) : World :=
  mkWorld (ticks w) (dirs w) (written w) (incomplete w ++ [p])%list (log w).

Definition logging (l : Level) (msg : string) (w : World) : World :=
  mkWorld (ticks w) (dirs w) (written w) (incomplete w)
          (log w ++ [(l, msg)])%list.

(** [re.sub(pat, repl, s)] as far as the program's own text decides it; every
    other pattern is left to the library. *)
Definition re_sub (env : Env) (pat repl s : string) : Exc + string :=
  if String.eqb pat "DICOM(.*)" && is_empty repl
  then inr (sub_DICOM_tail false s)
  else if is_literal pat && is_plain_repl repl
  then inr (sub_literal pat repl s)
  else regex_sub env pat repl s.

(** ** The program *)

Definition DATE_FIELDS : list string := ["DateOfLastCalibration"; "PatientBirthDate"].
Definition TIME_FIELDS : list string := ["TimeOfLastCalibration"].
Definition NAME_FIELDS : list string :=
  ["InstitutionName"; "InstitutionAddress"; "ReferringPhysicianName"].
Definition COMMENT_FIELDS : list string := ["ImageComments"].
Definition ID_FIELDS : list string := ["IrradiationEventUID"].
Definition META_FIELDS : list string :=
  ["PrivateInformationCreatorUID"; "PrivateInformation"].
Definition SEQUENCE_FIELDS : list string := ["RequestAttributesSequence"].

(** [extract_id_sex_age(path)] *)
Definition extract_id_sex_age (path : string) : Exc + (string * string * string) :=
  match search_id_sex_age path with
  | None => inl (AttributeError "group")
  | Some m =>
      match split m with
      | s0 :: s1 :: s2 :: _ => inr (strip s0, strip s1, strip s2)
      | _ => inl (IndexError "list index out of range")
      end
  end.

(** [for k in fields: if k in d: action(d, k)] *)
Definition for_present (fields : list string)
    (action : string -> Dataset -> Dataset) (d : Dataset) : Dataset :=
  fold_left (fun d k => if contains_key k d then action k d else d) fields d.

(** [for k in fields: d.pop(k, None)] *)
Definition for_pop (fields : list string) (d : Dataset) : Dataset :=
  fold_left (fun d k => remove k d) fields d.

(** The redaction steps of [anonymise], up to the restoring of the three
    patient fields: none of them can fail. *)
Definition redact (d : FileDataset) : FileDataset :=
  let e := remove_private_tags (elements d) in
  let e := for_present DATE_FIELDS (fun k => set_value k (VStr "20250419")) e in
  let e := for_present TIME_FIELDS (fun k => set_value k (VStr "094338")) e in
  let e := for_present (NAME_FIELDS ++ COMMENT_FIELDS)%list clear e in
  let e := for_present ID_FIELDS remove e in
  let e := for_pop SEQUENCE_FIELDS e in
  mkFileDataset e (for_pop META_FIELDS (file_meta d)).

(** [patient_id if len(patient_id) % 2 == 0 else patient_id + ' '] *)
Definition pad_even (patient_id : string) : string :=
  if Nat.eqb (length patient_id mod 2) 0 then patient_id else patient_id ++ " ".

(** The record is changed in place, so a raised exception leaves the caller
    with the record as changed so far. *)
Inductive Outcome : Type :=
  | Returned (d : FileDataset)
  | Raised (e : Exc) (d : FileDataset).

(** [d[k].value = v]: [d[k]] raises [KeyError] when [k] is absent. *)
Definition assign (k : string) (v : string) (d : FileDataset) : Outcome :=
  if contains_key k (elements d)
  then Returned (mkFileDataset (set_value k (VStr v) (elements d)) (file_meta d))
  else Raised (KeyError k) d.

Definition and_then (o : Outcome) (f : FileDataset -> Outcome) : Outcome :=
  match o with
  | Returned d => f d
  | Raised e d => Raised e d
  end.

(** The body of the [try] of [anonymise]. *)
Definition anonymise_body (d : FileDataset) (sex age patient_id : string) : Outcome :=
  let d := redact d in
  let age := zfill 3 age ++ "Y" in
  let sex := sex ++ " " in
  let patient_id := pad_even patient_id in
  and_then (assign "PatientSex" sex d) (fun d =>
  and_then (assign "PatientAge" age d) (fun d =>
  assign "PatientID" patient_id d)).

(** [anonymise(d, sex, age, patient_id)]: an exception is logged and raised
    again. *)
Definition anonymise (env : Env) (d : FileDataset) (sex age patient_id : string)
    (w : World) : Outcome * World :=
  match anonymise_body d sex age patient_id with
  | Returned d' => (Returned d', w)
  | Raised e d' =>
      (Raised e d',
       logging ERROR ("Failed to anonymize DICOM: " ++ exc_text env e) w)
  end.

(** Effects of the session processor: a step changes the world and either
    returns or raises. *)
Definition M (A : Type) : Type := World -> (Exc + A) * World.

Definition ret {A : Type} (a : A) : M A := fun w => (inr a, w).

Definition bind {A B : Type} (c : M A) (k : A -> M B) : M B :=
  fun w =>
    match c w with
    | (inr a, w') => k a w'
    | (inl e, w') => (inl e, w')
    end.

Definition of_result {A : Type} (r : Exc + A) : M A := fun w => (r, w).

Notation "x <- c ;; k" := (bind c (fun x => k))
  (at level 61, c at next level, right associativity).
Notation "' p <- c ;; k" := (bind c (fun x => match x with p => k end))
  (at level 61, p pattern, c at next level, right associativity).

(** [validate_checksum(file_path)]: any exception while the file is read
    back is logged and swallowed.  The digest itself is not computed here;
    the result says whether one was returned. *)
Definition validate_checksum (env : Env) (file_path : string) : M bool :=
  fun w =>
    match reread_error env w file_path with
    | None => (inr true, w)
    | Some e =>
        (inr false,
         logging ERROR ("Checksum validation failed for " ++ file_path ++ ": "
                        ++ exc_text env e) w)
    end.

(** Lexicographic order of [list.sort()] on strings. *)
Module StringOrder <: TotalLeBool.
Definition t := string.
Definition leb := String.leb.
Definition leb_total : forall a b, leb a b = true \/ leb b a = true :=
  String.leb_total.
End StringOrder.

Module StringSort := Sort StringOrder.

(** The arguments of one call of [process_folder]; [cat] is the pair of
    series categories. *)
Record Args : Type := mkArgs {
  root : string;
  files : list string;
  path : string;
  cat : string * string;
  last_directory : string;
  last_date_time : string
}.

(** [strftime("%Y%m%d%H%M%S")]: the year in decimal, which has four digits
    from the year 1000 on, the other fields on two digits. *)
Definition strftime_YmdHMS (t : DateTime) : string :=
  str_of_nat (year t) ++ zfill 2 (str_of_nat (month t))
  ++ zfill 2 (str_of_nat (day t)) ++ zfill 2 (str_of_nat (hour t))
  ++ zfill 2 (str_of_nat (minute t)) ++ zfill 2 (str_of_nat (second t)).

(** [datetime.now().strftime("%Y%m%d%H%M%S")[2:]] *)
Definition read_clock (env : Env) (w : World) : string * World :=
  (drop 2 (strftime_YmdHMS (now env (ticks w))), tick w).

(** [while last_date_time == date_time: date_time = ...]; [fuel] bounds the
    number of turns of the loop. *)
Fixpoint retry_clock (fuel : nat) (env : Env) (last_date_time date_time : string)
    (w : World) : option (string * World) :=
  if String.eqb last_date_time date_time
  then match fuel with
       | O => None
       | S fuel' =>
           let (date_time', w') := read_clock env w in
           retry_clock fuel' env last_date_time date_time' w'
       end
  else Some (date_time, w).

Definition fresh_token (fuel : nat) (env : Env) (last_date_time : string)
    (w : World) : option (string * World) :=
  let (date_time, w') := read_clock env w in
  retry_clock fuel env last_date_time date_time w'.

(** The test of line 131; [or] does not evaluate its second operand when the
    first holds. *)
Definition same_visit (env : Env) (cat : string * string)
    (root last_directory : string) : Exc + bool :=
  match re_sub env (fst cat) (snd cat) root with
  | inl e => inl e
  | inr a =>
      if String.eqb a last_directory then inr true
      else match re_sub env (snd cat) (fst cat) root with
           | inl e => inl e
           | inr b => inr (String.eqb b last_directory)
           end
  end.

Definition anonymise_step (env : Env) (x : FileDataset)
    (sex age patient_id : string) : M FileDataset :=
  fun w =>
    match anonymise env x sex age patient_id w with
    | (Returned d, w') => (inr d, w')
    | (Raised e _, w') => (inl e, w')
    end.

Definition makedirs (env : Env) (p : string) : M unit :=
  fun w =>
    match makedirs_error env w p with
    | Some e => (inl e, w)
    | None => (inr tt, add_dir p w)
    end.

(** [d.save_as(p)]: the destination is opened for writing, then the record
    is written to it; an exception raised in between leaves the file
    incomplete. *)
Definition save_as (env : Env) (d : FileDataset) (p : string) : M unit :=
  fun w =>
    match save_error env w p d with
    | Some (e, opened) =>
        (inl e, if opened then add_incomplete p w else w)
    | None => (inr tt, add_file p d w)
    end.

(** The directory a file of the session is written to, given the extracted
    session token and the identifier built for it. *)
Definition save_to_of (env : Env) (path file_path mater_id patient_id : string)
    : Exc + string :=
  match re_sub env "DICOM(.*)" "" file_path with
  | inl e => inl e
  | inr s1 =>
      match re_sub env path "Anonymised" s1 with
      | inl e => inl e
      | inr s2 => re_sub env mater_id patient_id s2
      end
  end.

(** The body of the [try] of the loop.  [date_time] is [None] while the
    local variable has not been assigned. *)
Definition process_file (env : Env) (root path : string)
    (date_time : option string) (names : list string)
    (idx : nat) (filename : string) : M unit :=
  let file_path := path_join root filename in
  x <- (fun w => (dcmread env w file_path, w)) ;;
  ' (mater_id, sex, age) <- of_result (extract_id_sex_age file_path) ;;
  date_time <- of_result (match date_time with
                          | Some t => inr t
                          | None => inl (UnboundLocalError "date_time")
                          end) ;;
  let patient_id := date_time ++ mater_id ++ "M" in
  anonym_x <- anonymise_step env x sex age patient_id ;;
  save_to <- of_result (save_to_of env path file_path mater_id patient_id) ;;
  _ <- makedirs env save_to ;;
  name <- of_result (match nth_error names idx with
                     | Some n => inr n
                     | None => inl (IndexError "list index out of range")
                     end) ;;
  let new_file_path := path_join save_to ("EXP" ++ name ++ ".dcm") in
  _ <- save_as env anonym_x new_file_path ;;
  _ <- validate_checksum env new_file_path ;;
  ret tt.

(** The entry of the failure list for a file. *)
Definition failure_entry (env : Env) (file_path : string) (e : Exc) : string :=
  file_path ++ ": " ++ exc_text env e.

(** [for idx, filename in enumerate(files): try: ... except Exception as e:
    ... continue], from index [idx] on. *)
Fixpoint for_each_file (env : Env) (root path : string)
    (date_time : option string) (names : list string) (idx : nat)
    (files : list string) (problematic : list string) (w : World)
    : list string * World :=
  match files with
  | [] => (problematic, w)
  | filename :: rest =>
      let file_path := path_join root filename in
      match process_file env root path date_time names idx filename w with
      | (inr _, w') =>
          for_each_file env root path date_time names (S idx) rest problematic w'
      | (inl e, w') =>
          let w'' := logging ERROR ("Error processing file " ++ file_path ++ ": "
                                    ++ exc_text env e) w' in
          for_each_file env root path date_time names (S idx) rest
            (problematic ++ [failure_entry env file_path e])%list w''
      end
  end.

(** [process_folder(args)].  The result is [None] only when [fuel] turns of
    the waiting loop were not enough; [inl e] when an exception leaves the
    function; otherwise the pair [(problematic, empty_dir)]. *)
Definition process_folder (fuel : nat) (env : Env) (args : Args) (w : World)
    : option ((Exc + (list string * list string)) * World) :=
  match files args with
  | [] => Some (inr ([], [root args]), w)
  | _ :: _ =>
      match same_visit env (cat args) (root args) (last_directory args) with
      | inl e => Some (inl e, w)
      | inr same =>
          let new_patient := negb same in
          let token :=
            if new_patient
            then match fresh_token fuel env (last_date_time args) w with
                 | Some (t, w') => Some (Some t, w')
                 | None => None
                 end
            else Some (None, w) in
          match token with
          | None => None
          | Some (date_time, w1) =>
              let names := map fmt_04d (seq 0 (List.length (files args))) in
              let sorted := StringSort.sort (files args) in
              let (problematic, w2) :=
                for_each_file env (root args) (path args) date_time names 0
                  sorted [] w1 in
              Some (inr (problematic, []),
                    logging INFO ("Anonymized: " ++ root args) w2)
          end
      end
  end.

(** The work list of [main]: one item for every directory of the walk whose
    path contains the marker. *)
Definition main_cat : string * string := ("T2_AX", "T2_SAG").

Definition all_roots (env : Env) (path : string) : list Args :=
  let last_date_time := "" in
  map (fun item => match item with
                   | (root, _, files) =>
                       mkArgs root files path main_cat "" last_date_time
                   end)
      (filter (fun item => match item with
                           | (root, _, _) => contains "EXP00000" root
                           end)
              (os_walk env path)).

(** The two reports of [main] from the results of the workers. *)
Definition aggregate (results : list (list string * list string))
    : list string * list string :=
  fold_left (fun acc r => (fst acc ++ fst r, snd acc ++ snd r)%list)
            results ([], []).

(** * Vocabulary of the statements *)

(** A non-empty run of digits. *)
Definition is_number (s : string) : bool :=
  negb (is_empty s) && all_chars is_digit s.

Definition starts_with_digit (s : string) : bool :=
  match s with
  | EmptyString => false
  | String c _ => is_digit c
  end.

(** No match of the pattern starts at one of the first [n] positions. *)
Fixpoint no_match_before (n : nat) (s : string) : bool :=
  match n with
  | O => true
  | S k =>
      match match_here s with
      | Some _ => false
      | None =>
          match s with
          | EmptyString => true
          | String _ s' => no_match_before k s'
          end
      end
  end.

Definition matched_text (a sex b : string) : string := a ++ " " ++ sex ++ " " ++ b.

(** *** The redaction seen element by element

    Every step of [anonymise] acts on each element of the record on its
    own: it keeps it, changes its value or drops it. *)
Definition Step : Type := DataElement -> option DataElement.

Definition apply_step (f : Step) (d : Dataset) : Dataset :=
  flat_map (fun e => match f e with Some e' => [e'] | None => [] end) d.

Definition then_step (f g : Step) : Step :=
  fun e => match f e with Some e' => g e' | None => None end.

Definition on_key (k : string) (f : Step) : Step :=
  fun e => if key_eqb (tag e) (Std k) then f e else Some e.

Definition set_step (v : Value) (k : string) : Step :=
  on_key k (fun e => Some (tag e, VR e, v)).

Definition clear_step (k : string) : Step :=
  on_key k (fun e => Some (tag e, VR e, empty_value_for_VR (VR e))).

Definition remove_step (k : string) : Step := on_key k (fun _ => None).

Definition private_step : Step :=
  fun e => if is_private (tag e) then None
           else Some (tag e, VR e, strip_private_value (value e)).

Definition steps_of (mk : string -> Step) (fields : list string) : Step :=
  fold_left (fun acc k => then_step acc (mk k)) fields (fun e => Some e).

Definition redact_step : Step :=
  then_step private_step
  (then_step (steps_of (set_step (VStr "20250419")) DATE_FIELDS)
  (then_step (steps_of (set_step (VStr "094338")) TIME_FIELDS)
  (then_step (steps_of clear_step (NAME_FIELDS ++ COMMENT_FIELDS)%list)
  (then_step (steps_of remove_step ID_FIELDS)
             (steps_of remove_step SEQUENCE_FIELDS))))).

Definition restore_step (sex age patient_id : string) : Step :=
  then_step (set_step (VStr sex) "PatientSex")
  (then_step (set_step (VStr age) "PatientAge")
             (set_step (VStr patient_id) "PatientID")).

Definition anonymise_step_of (sex age patient_id : string) : Step :=
  then_step redact_step (restore_step sex age patient_id).

Definition meta_step : Step := steps_of remove_step META_FIELDS.

(** The keywords [anonymise] names in the record itself. *)
Definition named_keywords : list string :=
  (DATE_FIELDS ++ TIME_FIELDS ++ NAME_FIELDS ++ COMMENT_FIELDS ++ ID_FIELDS
   ++ SEQUENCE_FIELDS ++ ["PatientSex"; "PatientAge"; "PatientID"])%list.

(** The three fields [anonymise] writes at its end. *)
Definition restored_fields : list string :=
  ["PatientSex"; "PatientAge"; "PatientID"].

(** The value stored under keyword [k], if the record has the element. *)
Definition value_of (k : string) (d : FileDataset) : option Value :=
  option_map value (get k (elements d)).

(** *** A valid file of a session

    The file loads, its path carries the identity pattern, its record has
    the three fields [anonymise] restores, the output path can be built, and
    the directory and the file can be written. *)
Definition has_restored_fields (x : FileDataset) : Prop :=
  forall k, In k restored_fields -> contains_key k (elements x) = true.

Definition file_ok (env : Env) (args : Args) (filename : string) : Prop :=
  let file_path := path_join (root args) filename in
  exists x mater_id sex age,
    (forall w, dcmread env w file_path = inr x)
    /\ extract_id_sex_age file_path = inr (mater_id, sex, age)
    /\ has_restored_fields x
    /\ (forall pid, exists save_to,
           save_to_of env (path args) file_path mater_id pid = inr save_to)
    /\ (forall w p, makedirs_error env w p = None)
    /\ (forall w p d, save_error env w p d = None).

(** The last component of a path. *)
Definition no_slash (s : string) : bool :=
  all_chars (fun c => negb (Ascii.eqb c "/")) s.

Fixpoint basename (s : string) : string :=
  match s with
  | EmptyString => EmptyString
  | String c s' =>
      if no_slash s'
      then (if Ascii.eqb c "/" then s' else s)
      else basename s'
  end.

(** [int(s)] of a run of digits. *)
Definition nat_of_str (s : string) : option nat :=
  option_map Nat.of_uint (NilEmpty.uint_of_string s).

(** *** Sample data for the worked examples *)

Definition sample_record : FileDataset :=
  mkFileDataset
    [ (Std "PatientBirthDate", "DA", VStr "19800101");
      (Std "PatientSex", "CS", VStr "F");
      (Std "PatientAge", "AS", VStr "034Y");
      (Std "PatientID", "LO", VStr "RSSMRA80A41H501U");
      (Std "InstitutionName", "LO", VStr "Ospedale");
      (Private 9 16, "LO", VStr "vendor");
      (Std "IrradiationEventUID", "UI", VStr "1.2.3");
      (Std "RequestAttributesSequence", "SQ",
       VSeq [[(Std "ScheduledProcedureStepID", "SH", VStr "7")]]);
      (Std "ReferencedImageSequence", "SQ",
       VSeq [[(Std "ReferencedSOPClassUID", "UI", VStr "1.2");
              (Private 41 16, "LO", VStr "vendor")]]) ]
    [ (Std "PrivateInformation", "OB", VStr "x");
      (Std "TransferSyntaxUID", "UI", VStr "1.2.840.10008.1.2.1") ].

(** The same record without its [PatientSex] element. *)
Definition record_without_sex : FileDataset :=
  mkFileDataset
    [ (Std "PatientBirthDate", "DA", VStr "19800101");
      (Std "PatientAge", "AS", VStr "034Y");
      (Std "PatientID", "LO", VStr "RSSMRA80A41H501U") ]
    [].

Definition sample_exc_text (e : Exc) : string :=
  match e with
  | KeyError k => k
  | AttributeError what => "'NoneType' object has no attribute '" ++ what ++ "'"
  | IndexError what => what
  | UnboundLocalError v =>
      "cannot access local variable '" ++ v
      ++ "' where it is not associated with a value"
  | LibraryError text => text
  end.

(** A clock that advances by one second at every reading, a file system
    in which the files named [corrupt...] do not load, and a walk with the
    two series folders of one visit. *)
Definition sample_env : Env :=
  mkEnv
    (fun k => mkDateTime 2025 4 19 9 43 (38 + k))
    (fun _ p => if contains "/corrupt" p
                then inl (LibraryError "File is missing DICOM File Meta Information header")
                else inr sample_record)
    (fun _ _ => None)
    (fun _ _ _ => None)
    (fun _ _ => None)
    (fun _ _ s => inr s)
    (fun _ =>
       [ ("/data", ["0001"], []);
         ("/data/0001/12 F 034/T2_AX_1/DICOM/EXP00000", [], ["b.dcm"; "a.dcm"]);
         ("/data/0001/12 F 034/T2_SAG_1/DICOM/EXP00000", [], ["c.dcm"]) ])
    sample_exc_text.

Definition sample_root : string := "/data/0001/12 F 034/T2_AX_1/DICOM/EXP00000".

Definition sample_args (files : list string) : Args :=
  mkArgs sample_root files "/data" main_cat "" "".

(** The second series folder of the visit, called with the first one as
    the previous directory and the token generated for it. *)
Definition sample_args_same_visit : Args :=
  mkArgs "/data/0001/12 F 034/T2_SAG_1/DICOM/EXP00000" ["c.dcm"] "/data"
         main_cat sample_root "250419094338".

(** The reading of the clock with number [k], as a token. *)
Definition token_at (env : Env) (k : nat) : string :=
  drop 2 (strftime_YmdHMS (now env k)).

(** The same call on another listing of the files. *)
Definition with_files (args : Args) (files' : list string) : Args :=
  mkArgs (root args) files' (path args) (cat args) (last_directory args)
         (last_date_time args).

(** The names of the output files of a session of [n] files. *)
Definition names_of (n : nat) : list string := map fmt_04d (seq 0 n).



(** The failure list of a session whose files met the given outcomes
    ([None] for a file that was written, the exception otherwise), and the
    number of files written. *)
Definition failure_entries (env : Env) (root : string)
    (outcomes : list (string * option Exc)) : list string :=
  flat_map (fun fo =>
              match snd fo with
              | Some e => [failure_entry env (path_join root (fst fo)) e]
              | None => []
              end) outcomes.

Definition written_count (outcomes : list (option Exc)) : nat :=
  List.length (filter (fun o => match o with None => true | Some _ => false end)
                      outcomes).

(** *** Vocabulary of the further properties *)

(** No private element at any depth. *)
Fixpoint no_private_value (v : Value) : bool :=
  match v with
  | VNone => true
  | VStr _ => true
  | VSeq items =>
      forallb (fix clean (d : list (Key * string * Value)) : bool :=
                 match d with
                 | [] => true
                 | (k, _, x) :: r =>
                     negb (is_private k) && no_private_value x && clean r
                 end) items
  end.

Fixpoint no_private (d : Dataset) : bool :=
  match d with
  | [] => true
  | (k, _, x) :: r => negb (is_private k) && no_private_value x && no_private r
  end.

(** The record as [anonymise] leaves it, returned or not: it is changed in
    place. *)
Definition outcome_record (o : Outcome) : FileDataset :=
  match o with
  | Returned d => d
  | Raised _ d => d
  end.

(** The keywords [anonymise] names in the record, the three restored fields
    apart. *)
Definition redacted_keywords : list string :=
  (DATE_FIELDS ++ TIME_FIELDS ++ NAME_FIELDS ++ COMMENT_FIELDS ++ ID_FIELDS
   ++ SEQUENCE_FIELDS)%list.

(** The element with a new value. *)
Definition with_value (v : Value) (e : DataElement) : DataElement :=
  (tag e, VR e, v).

Definition cleared (e : DataElement) : DataElement :=
  (tag e, VR e, empty_value_for_VR (VR e)).

Definition stripped (e : DataElement) : DataElement :=
  (tag e, VR e, strip_private_value (value e)).

(** The file meta elements [anonymise] keeps. *)
Definition kept_meta (e : DataElement) : bool :=
  negb (existsb (fun k => key_eqb (tag e) (Std k)) META_FIELDS).

(** A record with the patient's name and a referring physician. *)
Definition record_with_name : FileDataset :=
  mkFileDataset
    [ (Std "PatientName", "PN", VStr "ROSSI^MARIA");
      (Std "PatientSex", "CS", VStr "F");
      (Std "PatientAge", "AS", VStr "034Y");
      (Std "PatientID", "LO", VStr "RSSMRA80A41H501U");
      (Std "ReferringPhysicianName", "PN", VStr "BIANCHI^LUCA") ]
    [].

(** The elements on which a step is defined. *)
Definition kept_by (f : Step) (e : DataElement) : bool :=
  match f e with Some _ => true | None => false end.

(** A string without its last character. *)
Fixpoint but_last (s : string) : string :=
  match s with
  | EmptyString => EmptyString
  | String c EmptyString => EmptyString
  | String c s' => String c (but_last s')
  end.

(** The same surroundings with another answer to the reading back of a
    written file. *)
Definition with_reread (env : Env) (r : World -> string -> option Exc) : Env :=
  mkEnv (now env) (dcmread env) (makedirs_error env) (save_error env) r
        (regex_sub env) (os_walk env) (exc_text env).

(** The sample surroundings with an output tree on which no file can be
    written. *)
Definition sample_env_read_only : Env :=
  mkEnv (now sample_env) (dcmread sample_env) (makedirs_error sample_env)
        (fun _ _ _ =>
           Some (LibraryError "[Errno 30] Read-only file system", false))
        (reread_error sample_env) (regex_sub sample_env) (os_walk sample_env)
        (exc_text sample_env).

(** The sample surroundings in which every file loads as the record without
    its sex element. *)
Definition sample_env_without_sex : Env :=
  mkEnv (now sample_env) (fun _ _ => inr record_without_sex)
        (makedirs_error sample_env) (save_error sample_env)
        (reread_error sample_env) (regex_sub sample_env) (os_walk sample_env)
        (exc_text sample_env).

(** A pair of categories that [re.sub] takes literally, both as pattern and
    as replacement. *)
Definition literal_cat (cat : string * string) : bool :=
  negb (is_empty (fst cat)) && negb (is_empty (snd cat))
  && is_literal (fst cat) && is_plain_repl (fst cat)
  && is_literal (snd cat) && is_plain_repl (snd cat).

(** The sample surroundings with a regular-expression engine that rejects
    every pattern it is asked to compile. *)
Definition sample_env_strict : Env :=
  mkEnv (now sample_env) (dcmread sample_env) (makedirs_error sample_env)
        (save_error sample_env) (reread_error sample_env)
        (fun _ _ _ => inl (LibraryError "nothing to repeat at position 0"))
        (os_walk sample_env) (exc_text sample_env).

(** A call whose first category is not a valid pattern. *)
Definition sample_args_bad_cat : Args :=
  mkArgs sample_root ["a.dcm"] "/data" ("*", "T2_SAG") "" "".

(** The first of the three restored fields, in the order of the
    assignments, that the record lacks. *)
Definition first_missing (x : FileDataset) : option string :=
  find (fun k => negb (contains_key k (elements x))) restored_fields.

(** The sample surroundings with an output tree on which a file can be
    opened but not filled. *)
Definition sample_env_disk_full : Env :=
  mkEnv (now sample_env) (dcmread sample_env) (makedirs_error sample_env)
        (fun _ _ _ =>
           Some (LibraryError "[Errno 28] No space left on device", true))
        (reread_error sample_env) (regex_sub sample_env) (os_walk sample_env)
        (exc_text sample_env).

(** The indices under which the files of a session are written, given the
    outcome of every file from index [idx] on: a file that fails takes its
    index with it. *)
Fixpoint written_positions (outcomes : list (option Exc)) (idx : nat)
    : list nat :=
  match outcomes with
  | [] => []
  | None :: rest => idx :: written_positions rest (S idx)
  | Some _ :: rest => written_positions rest (S idx)
  end.

(** The pair [rec] of a path and a record is what a session of token [t]
    writes for its file [f] under the name [name], the file being read in
    the world [w0]: the file loads, its path gives the identity, the record
    is the loaded one as [anonymise] returns it for the identifier of the
    session, and the path is the directory derived from the path of the file
    followed by the name. *)
Definition written_from (env : Env) (root path t f name : string) (w0 : World)
    (rec : string * FileDataset) : Prop :=
  let file_path := path_join root f in
  exists x mater_id sex age save_to,
    dcmread env w0 file_path = inr x
    /\ extract_id_sex_age file_path = inr (mater_id, sex, age)
    /\ anonymise_body x sex age (t ++ mater_id ++ "M") = Returned (snd rec)
    /\ save_to_of env path file_path mater_id (t ++ mater_id ++ "M")
       = inr save_to
    /\ fst rec = path_join save_to ("EXP" ++ name ++ ".dcm").

(** * Properties *)

#[global] Arguments Py.is_digit : simpl never.
#[global] Arguments Py.is_space : simpl never.
#[global] Arguments Re.is_meta : simpl never.

(** ** Strings *)

Section StringFacts.

Lemma append_nil_r (s : string) : s ++ "" = s.
Proof. induction s as [|c s IH]; simpl; [reflexivity | now rewrite IH]. Qed.

Lemma append_assoc (a b c : string) : (a ++ b) ++ c = a ++ b ++ c.
Proof. induction a as [|x a IH]; simpl; [reflexivity | now rewrite IH]. Qed.

Lemma length_append (a b : string) : length (a ++ b) = length a + length b.
Proof. induction a as [|x a IH]; simpl; [reflexivity | now rewrite IH]. Qed.

Lemma is_empty_true (s : string) : is_empty s = true -> s = "".
Proof. destruct s; [reflexivity | discriminate]. Qed.

Lemma is_empty_append (a b : string) :
  is_empty (a ++ b) = is_empty a && is_empty b.
Proof. destruct a; reflexivity. Qed.

Lemma all_chars_append (p : ascii -> bool) (a b : string) :
  all_chars p (a ++ b) = all_chars p a && all_chars p b.
Proof.
  induction a as [|x a IH]; simpl; [reflexivity|].
  now rewrite IH, andb_assoc.
Qed.

Lemma all_chars_impl (p q : ascii -> bool) (s : string) :
  (forall c, p c = true -> q c = true) ->
  all_chars p s = true -> all_chars q s = true.
Proof.
  intros Hpq; induction s as [|c s IH]; simpl; [reflexivity|].
  intros H; apply andb_true_iff in H as [Hc Hs].
  now rewrite (Hpq _ Hc), IH.
Qed.

Lemma all_chars_repeat (p : ascii -> bool) (c : ascii) (n : nat) :
  p c = true -> all_chars p (repeat_char c n) = true.
Proof. intros Hc; induction n; simpl; [reflexivity | now rewrite Hc]. Qed.

Lemma length_repeat_char (c : ascii) (n : nat) : length (repeat_char c n) = n.
Proof. induction n; simpl; congruence. Qed.

Lemma prefix_refl_append (m t : string) : prefix m (m ++ t) = true.
Proof.
  induction m as [|c m IH]; simpl; [now destruct t|].
  destruct (ascii_dec c c); [exact IH | congruence].
Qed.

Lemma contains_prefix (m s : string) : prefix m s = true -> contains m s = true.
Proof. intros H; destruct s; simpl in *; now rewrite H. Qed.

Lemma contains_tail (m : string) (c : ascii) (s : string) :
  contains m s = true -> contains m (String c s) = true.
Proof. intros H; cbn [contains]; rewrite H; apply orb_true_r. Qed.

Lemma contains_append (m pre post : string) :
  contains m (pre ++ m ++ post) = true.
Proof.
  induction pre as [|c pre IH]; cbn [append].
  - apply contains_prefix, prefix_refl_append.
  - apply contains_tail, IH.
Qed.

Lemma contains_nonempty (m s : string) :
  is_empty m = false -> contains m s = true -> is_empty s = false.
Proof. destruct s; [destruct m; cbn; intros; discriminate | reflexivity]. Qed.

Lemma digit_not_space (c : ascii) : is_digit c = true -> is_space c = false.
Proof.
  destruct c as [[] [] [] [] [] [] [] []]; cbn; intros H;
    try discriminate H; reflexivity.
Qed.

Lemma digit_not_slash (c : ascii) : is_digit c = true -> Ascii.eqb c "/" = false.
Proof.
  destruct c as [[] [] [] [] [] [] [] []]; cbn; intros H;
    try discriminate H; reflexivity.
Qed.

End StringFacts.

(** ** The identity extractor *)

Section Extractor.

Lemma span_digits_spec (s : string) :
  s = fst (span_digits s) ++ snd (span_digits s)
  /\ all_chars is_digit (fst (span_digits s)) = true
  /\ starts_with_digit (snd (span_digits s)) = false.
Proof.
  induction s as [|c s IH]; [now cbn|].
  cbn [span_digits]. destruct (is_digit c) eqn:Hc.
  - destruct (span_digits s) as [d r]; cbn [fst snd all_chars append] in *.
    destruct IH as (E & D & R). rewrite Hc, D, <- E. auto.
  - cbn [fst snd all_chars append starts_with_digit]. auto.
Qed.

Lemma span_digits_append (a r : string) :
  all_chars is_digit a = true -> starts_with_digit r = false ->
  span_digits (a ++ r) = (a, r).
Proof.
  induction a as [|c a IH]; cbn [append all_chars]; intros Ha Hr.
  - destruct r as [|c r]; [reflexivity|].
    cbn [starts_with_digit] in Hr. cbn [span_digits]. now rewrite Hr.
  - apply andb_true_iff in Ha as [Hc Ha]. cbn [span_digits].
    now rewrite Hc, IH.
Qed.

Lemma span_digits_head (b post : string) :
  is_number b = true -> is_empty (fst (span_digits (b ++ post))) = false.
Proof.
  destruct b as [|c b]; [discriminate|]. cbn. intros H.
  apply andb_true_iff in H as [Hc _]. rewrite Hc.
  now destruct (span_digits (b ++ post)).
Qed.

Lemma match_alt_shape (x : ascii) (s m : string) :
  match_alt x s = Some m ->
  exists a b, m = matched_text a (String x "") b
              /\ is_number a = true /\ is_number b = true
              /\ prefix m s = true.
Proof.
  unfold match_alt.
  destruct (span_digits_spec s) as (E & D & _).
  destruct (span_digits s) as [a r]; cbn [fst snd] in *.
  destruct (is_empty a) eqn:Ea; [discriminate|].
  destruct r as [|sp1 [|y [|sp2 r']]]; try discriminate.
  destruct (Ascii.eqb sp1 " ") eqn:E1; [|discriminate].
  destruct (Ascii.eqb y x) eqn:E2; [|discriminate].
  destruct (Ascii.eqb sp2 " ") eqn:E3; [|discriminate].
  cbn [andb].
  destruct (span_digits_spec r') as (E' & D' & _).
  destruct (span_digits r') as [b r'']; cbn [fst snd] in *.
  destruct (is_empty b) eqn:Eb; [discriminate|].
  intros H; injection H as <-.
  apply Ascii.eqb_eq in E1, E2, E3; subst sp1 y sp2.
  exists a, b. unfold is_number. rewrite Ea, Eb, D, D'.
  repeat split; try reflexivity.
  rewrite E, E'.
  replace (a ++ String " " (String x (String " " (b ++ r''))))
    with ((a ++ String " " (String x (String " " b))) ++ r'').
  - apply prefix_refl_append.
  - rewrite append_assoc. reflexivity.
Qed.

Lemma match_here_shape (s m : string) :
  match_here s = Some m ->
  exists a sex b, m = matched_text a sex b
                  /\ is_number a = true /\ (sex = "F" \/ sex = "M")
                  /\ is_number b = true /\ prefix m s = true.
Proof.
  unfold match_here. destruct (match_alt "F" s) as [m'|] eqn:HF.
  - intros H; injection H as ->.
    apply match_alt_shape in HF as (a & b & ? & ? & ? & ?).
    exists a, "F", b; auto 6.
  - intros HM. apply match_alt_shape in HM as (a & b & ? & ? & ? & ?).
    exists a, "M", b; auto 6.
Qed.

Lemma search_shape (s m : string) :
  search_id_sex_age s = Some m ->
  exists a sex b, m = matched_text a sex b
                  /\ is_number a = true /\ (sex = "F" \/ sex = "M")
                  /\ is_number b = true /\ contains m s = true.
Proof.
  induction s as [|c s IH]; cbn [search_id_sex_age].
  - destruct (match_here "") eqn:H; [|discriminate].
    intros E; injection E as ->.
    apply match_here_shape in H as (a & sex & b & ? & ? & ? & ? & ?).
    exists a, sex, b; repeat split; auto using contains_prefix.
  - destruct (match_here (String c s)) eqn:H.
    + intros E; injection E as ->.
      apply match_here_shape in H as (a & sex & b & ? & ? & ? & ? & ?).
      exists a, sex, b; repeat split; auto using contains_prefix.
    + intros E. destruct (IH E) as (a & sex & b & ? & ? & ? & ? & ?).
      exists a, sex, b; repeat split; auto using contains_tail.
Qed.

Lemma match_here_at (a sex b post : string) :
  is_number a = true -> (sex = "F" \/ sex = "M") -> is_number b = true ->
  match_here (matched_text a sex b ++ post)
  = Some (matched_text a sex (fst (span_digits (b ++ post)))).
Proof.
  intros Ha Hsex Hb.
  pose proof (span_digits_head b post Hb) as Hne.
  apply andb_true_iff in Ha as [Ha1 Ha2].
  apply negb_true_iff in Ha1.
  assert (Hsp : forall t, span_digits (a ++ String " " t) = (a, String " " t)).
  { intros t. apply span_digits_append; [exact Ha2 | reflexivity]. }
  unfold matched_text, match_here, match_alt.
  destruct Hsex as [-> | ->]; cbn [append];
    rewrite !append_assoc; cbn [append];
    rewrite Hsp, Ha1; cbn;
    rewrite ?append_assoc; cbn [append];
    destruct (span_digits (b ++ post)) as [b' r']; cbn [fst] in *;
    rewrite Hne; reflexivity.
Qed.

Lemma search_finds (pre s : string) :
  match_here s <> None -> search_id_sex_age (pre ++ s) <> None.
Proof.
  intros Hs. induction pre as [|c pre IH]; cbn [append].
  - destruct s; cbn [search_id_sex_age];
      destruct (match_here _); congruence.
  - cbn [search_id_sex_age].
    destruct (match_here (String c (pre ++ s))); [discriminate | exact IH].
Qed.

Lemma search_skip (pre s : string) :
  no_match_before (length pre) (pre ++ s) = true ->
  search_id_sex_age (pre ++ s) = search_id_sex_age s.
Proof.
  induction pre as [|c pre IH]; cbn [append length]; [reflexivity|].
  cbn [no_match_before search_id_sex_age].
  destruct (match_here (String c (pre ++ s))); [discriminate | exact IH].
Qed.

Lemma search_at_head (s m : string) :
  match_here s = Some m -> search_id_sex_age s = Some m.
Proof. intros H; destruct s; cbn [search_id_sex_age]; now rewrite H. Qed.

Lemma split_from_nonspace (t cur s : string) :
  all_chars (fun c => negb (is_space c)) t = true ->
  split_from cur (t ++ s) = split_from (cur ++ t) s.
Proof.
  revert cur; induction t as [|c t IH]; cbn [append all_chars]; intros cur H.
  - now rewrite append_nil_r.
  - apply andb_true_iff in H as [Hc Ht]. cbn [split_from].
    apply negb_true_iff in Hc. rewrite Hc, IH by exact Ht.
    now rewrite append_assoc.
Qed.

Lemma number_nonspace (s : string) :
  is_number s = true -> all_chars (fun c => negb (is_space c)) s = true.
Proof.
  intros H; apply andb_true_iff in H as [_ H].
  revert H; apply all_chars_impl.
  intros c Hc; now rewrite (digit_not_space c Hc).
Qed.

Lemma rstrip_nonspace (s : string) :
  all_chars (fun c => negb (is_space c)) s = true -> rstrip s = s.
Proof.
  induction s as [|c s IH]; cbn [rstrip all_chars]; [reflexivity|].
  intros H; apply andb_true_iff in H as [Hc Hs].
  apply negb_true_iff in Hc. now rewrite Hc, IH.
Qed.

Lemma strip_nonspace (s : string) :
  all_chars (fun c => negb (is_space c)) s = true -> strip s = s.
Proof.
  intros H; unfold strip; rewrite rstrip_nonspace by exact H.
  destruct s as [|c s]; [reflexivity|]. cbn in *.
  apply andb_true_iff in H as [Hc _]. apply negb_true_iff in Hc.
  now rewrite Hc.
Qed.

Lemma split_matched_text (a sex b : string) :
  is_number a = true -> (sex = "F" \/ sex = "M") -> is_number b = true ->
  split (matched_text a sex b) = [a; sex; b].
Proof.
  intros Ha Hsex Hb.
  pose proof (number_nonspace a Ha) as Na.
  pose proof (number_nonspace b Hb) as Nb.
  apply andb_true_iff in Ha as [Ha _], Hb as [Hb _].
  unfold split, matched_text.
  rewrite (split_from_nonspace a) by exact Na. cbn [append].
  assert (Hb' : split_from "" b = [b]).
  { rewrite <- (append_nil_r b) at 1.
    rewrite (split_from_nonspace b) by exact Nb. cbn.
    now destruct (is_empty b). }
  destruct (is_empty a) eqn:Ea; [discriminate|].
  destruct Hsex as [-> | ->]; cbn; rewrite Ea, Hb'; reflexivity.
Qed.

Lemma extract_of_search (path a sex b : string) :
  search_id_sex_age path = Some (matched_text a sex b) ->
  is_number a = true -> (sex = "F" \/ sex = "M") -> is_number b = true ->
  extract_id_sex_age path = inr (a, sex, b).
Proof.
  intros Hs Ha Hsex Hb. unfold extract_id_sex_age.
  rewrite Hs, (split_matched_text a sex b Ha Hsex Hb).
  rewrite !strip_nonspace; auto using number_nonspace.
  destruct Hsex as [-> | ->]; reflexivity.
Qed.

(** A match at the head of a string: the string is the matched text
    followed by something that does not start with a digit. *)
Lemma match_alt_decomp (x : ascii) (s m : string) :
  match_alt x s = Some m ->
  exists a b r, m = matched_text a (String x "") b
                /\ s = m ++ r
                /\ is_number a = true /\ is_number b = true
                /\ starts_with_digit r = false.
Proof.
  unfold match_alt.
  destruct (span_digits_spec s) as (E & D & _).
  destruct (span_digits s) as [a r]; cbn [fst snd] in *.
  destruct (is_empty a) eqn:Ea; [discriminate|].
  destruct r as [|sp1 [|y [|sp2 r']]]; try discriminate.
  destruct (Ascii.eqb sp1 " ") eqn:E1; [|discriminate].
  destruct (Ascii.eqb y x) eqn:E2; [|discriminate].
  destruct (Ascii.eqb sp2 " ") eqn:E3; [|discriminate].
  cbn [andb].
  destruct (span_digits_spec r') as (E' & D' & R').
  destruct (span_digits r') as [b r'']; cbn [fst snd] in *.
  destruct (is_empty b) eqn:Eb; [discriminate|].
  intros H; injection H as <-.
  apply Ascii.eqb_eq in E1, E2, E3; subst sp1 y sp2.
  exists a, b, r''. unfold is_number. rewrite Ea, Eb, D, D'.
  repeat split; try reflexivity; [|exact R'].
  rewrite E, E', append_assoc. reflexivity.
Qed.

Lemma match_here_decomp (s m : string) :
  match_here s = Some m ->
  exists a sex b r, m = matched_text a sex b
                    /\ s = m ++ r
                    /\ is_number a = true /\ (sex = "F" \/ sex = "M")
                    /\ is_number b = true
                    /\ starts_with_digit r = false.
Proof.
  unfold match_here. destruct (match_alt "F" s) as [m'|] eqn:HF.
  - intros H; injection H as ->.
    apply match_alt_decomp in HF as (a & b & r & ? & ? & ? & ? & ?).
    exists a, "F", b, r; auto 7.
  - intros HM. apply match_alt_decomp in HM as (a & b & r & ? & ? & ? & ? & ?).
    exists a, "M", b, r; auto 7.
Qed.

(** What [re.search] returns is the match at the leftmost position that has
    one. *)
Lemma search_decomp (s m : string) :
  search_id_sex_age s = Some m ->
  exists pre post a sex b,
    s = pre ++ m ++ post
    /\ m = matched_text a sex b
    /\ no_match_before (length pre) s = true
    /\ is_number a = true /\ (sex = "F" \/ sex = "M") /\ is_number b = true
    /\ starts_with_digit post = false.
Proof.
  assert (Hhead : forall s, match_here s = Some m ->
            exists pre post a sex b,
              s = pre ++ m ++ post
              /\ m = matched_text a sex b
              /\ no_match_before (length pre) s = true
              /\ is_number a = true /\ (sex = "F" \/ sex = "M")
              /\ is_number b = true
              /\ starts_with_digit post = false).
  { intros s0 H.
    apply match_here_decomp in H as (a & sex & b & r & ? & ? & ? & ? & ? & ?).
    exists "", r, a, sex, b. cbn [append length no_match_before]. auto 8. }
  induction s as [|c s IH]; cbn [search_id_sex_age].
  - destruct (match_here "") eqn:H; [|discriminate].
    intros E; injection E as ->. now apply Hhead.
  - destruct (match_here (String c s)) eqn:H.
    + intros E; injection E as ->. now apply Hhead.
    + intros E.
      destruct (IH E) as (pre & post & a & sex & b & -> & ? & ? & ? & ? & ? & ?).
      exists (String c pre), post, a, sex, b.
      cbn [append length no_match_before]. rewrite H. auto 8.
Qed.

(** No match starts before the leftmost one. *)
Lemma no_match_before_le (n : nat) :
  forall pre r,
    no_match_before n (pre ++ r) = true -> match_here r <> None ->
    n <= length pre.
Proof.
  induction n as [|n IH]; intros pre r H Hr; [lia|].
  cbn [no_match_before] in H.
  destruct (match_here (pre ++ r)) eqn:Hm; [discriminate|].
  destruct pre as [|c pre]; cbn [append length] in *; [congruence|].
  apply le_n_S. now apply (IH pre r).
Qed.

End Extractor.

(** ** C8: what the identity extractor returns *)

(** C8, as the code has it.  For every path that contains a substring of
    the form digits, space, [F] or [M], space, digits, [extract_id_sex_age]
    returns the three tokens of the leftmost such substring of the path, its
    runs of digits taken whole: no match starts before it, it starts no later
    than the given occurrence, and no digit follows it.  When no match starts
    before the given occurrence and no digit follows it, the result is that
    occurrence's own three tokens, as for a path with [12 F 034] between
    slashes. *)
Theorem extract_id_sex_age_returns_tokens (pre a sex b post : string) :
  is_number a = true -> (sex = "F" \/ sex = "M") -> is_number b = true ->
  let path := pre ++ matched_text a sex b ++ post in
  (exists pre' a' sex' b' post',
      path = pre' ++ matched_text a' sex' b' ++ post'
      /\ no_match_before (length pre') path = true
      /\ length pre' <= length pre
      /\ is_number a' = true /\ (sex' = "F" \/ sex' = "M")
      /\ is_number b' = true
      /\ starts_with_digit post' = false
      /\ extract_id_sex_age path = inr (a', sex', b'))
  /\ (no_match_before (length pre) path = true ->
      starts_with_digit post = false ->
      extract_id_sex_age path = inr (a, sex, b)).
Proof.
  intros Ha Hsex Hb path. subst path.
  pose proof (match_here_at a sex b post Ha Hsex Hb) as Hm.
  split.
  - destruct (search_id_sex_age (pre ++ matched_text a sex b ++ post))
      as [m|] eqn:Hs.
    + destruct (search_decomp _ _ Hs)
        as (pre' & post' & a' & sex' & b' & E & -> & Hno & Ha' & Hs' & Hb' & Hp').
      exists pre', a', sex', b', post'.
      split; [exact E|]. split; [exact Hno|].
      split; [|split; [exact Ha'|split; [exact Hs'|split; [exact Hb'|]]]].
      * apply (no_match_before_le _ pre (matched_text a sex b ++ post)).
        -- exact Hno.
        -- now rewrite Hm.
      * split; [exact Hp'|]. now apply extract_of_search.
    + exfalso. revert Hs. apply search_finds. now rewrite Hm.
  - intros Hbefore Hpost.
    apply extract_of_search; auto.
    rewrite (search_skip _ _ Hbefore), (search_at_head _ _ Hm).
    apply andb_true_iff in Hb as [_ Hb].
    now rewrite (span_digits_append b post Hb Hpost).
Qed.

Lemma extract_id_sex_age_12_F_034 :
  extract_id_sex_age "/data/0001/12 F 034/T2_AX_1/DICOM/EXP00000/a.dcm"
  = inr ("12", "F", "034").
Proof.
  apply (proj2 (extract_id_sex_age_returns_tokens
                  "/data/0001/" "12" "F" "034" "/T2_AX_1/DICOM/EXP00000/a.dcm"
                  eq_refl (or_introl eq_refl) eq_refl));
    vm_compute; reflexivity.
Defined.

(** C8 as stated fails: a path can contain [12 F 034] and yield other
    tokens, those of a match that starts earlier, or a longer run of digits
    of which [034] is only the beginning. *)
Lemma extract_id_sex_age_other_tokens :
  contains "12 F 034" "/x/5 M 6/12 F 034/a" = true
  /\ extract_id_sex_age "/x/5 M 6/12 F 034/a" = inr ("5", "M", "6")
  /\ contains "12 F 034" "/x/12 F 0345/a" = true
  /\ extract_id_sex_age "/x/12 F 0345/a" = inr ("12", "F", "0345").
Proof. repeat split; vm_compute; reflexivity. Qed.

(** ** The record anonymiser *)

Lemma key_eqb_eq (a b : Key) : key_eqb a b = true <-> a = b.
Proof.
  destruct a, b; cbn; try (split; intro; discriminate).
  - rewrite String.eqb_eq. split; congruence.
  - rewrite andb_true_iff, !N.eqb_eq. split; [intros []|intros [=]]; subst; auto.
Qed.

Lemma key_eqb_refl (a : Key) : key_eqb a a = true.
Proof. now apply key_eqb_eq. Qed.

Lemma apply_step_then (f g : Step) (d : Dataset) :
  apply_step g (apply_step f d) = apply_step (then_step f g) d.
Proof.
  unfold apply_step, then_step.
  induction d as [|e d IH]; cbn [flat_map]; [reflexivity|].
  rewrite flat_map_app, IH. f_equal.
  destruct (f e); cbn [flat_map]; [apply app_nil_r | reflexivity].
Qed.

Lemma apply_step_ext (f g : Step) (d : Dataset) :
  (forall e, f e = g e) -> apply_step f d = apply_step g d.
Proof.
  intros H; unfold apply_step. apply flat_map_ext. intros e; now rewrite H.
Qed.

Lemma apply_step_id (d : Dataset) : apply_step (fun e => Some e) d = d.
Proof.
  unfold apply_step. induction d as [|e d IH]; cbn; [reflexivity | now rewrite IH].
Qed.

Lemma apply_step_idem (f : Step) (d : Dataset) :
  (forall e e', f e = Some e' -> f e' = Some e') ->
  apply_step f (apply_step f d) = apply_step f d.
Proof.
  intros H. rewrite apply_step_then. apply apply_step_ext.
  intros e; unfold then_step. destruct (f e) eqn:E; [exact (H _ _ E) | reflexivity].
Qed.

Lemma apply_on_key_absent (k : string) (f : Step) (d : Dataset) :
  contains_key k d = false -> apply_step (on_key k f) d = d.
Proof.
  unfold apply_step, on_key, contains_key.
  induction d as [|e d IH]; cbn [existsb flat_map]; [reflexivity|].
  intros H; apply orb_false_iff in H as [He Hd].
  rewrite He, IH by exact Hd. reflexivity.
Qed.

Lemma set_value_step (k : string) (v : Value) (d : Dataset) :
  set_value k v d = apply_step (set_step v k) d.
Proof.
  unfold set_value, apply_step, set_step, on_key.
  induction d as [|e d IH]; cbn [map flat_map]; [reflexivity|].
  rewrite IH. now destruct (key_eqb (tag e) (Std k)).
Qed.

Lemma clear_as_step (k : string) (d : Dataset) :
  clear k d = apply_step (clear_step k) d.
Proof.
  unfold clear, apply_step, clear_step, on_key.
  induction d as [|e d IH]; cbn [map flat_map]; [reflexivity|].
  rewrite IH. now destruct (key_eqb (tag e) (Std k)).
Qed.

Lemma remove_as_step (k : string) (d : Dataset) :
  remove k d = apply_step (remove_step k) d.
Proof.
  unfold remove, apply_step, remove_step, on_key.
  induction d as [|e d IH]; cbn [filter flat_map]; [reflexivity|].
  rewrite IH. now destruct (key_eqb (tag e) (Std k)).
Qed.

Lemma remove_private_tags_step (d : Dataset) :
  remove_private_tags d = apply_step private_step d.
Proof.
  unfold apply_step, private_step.
  induction d as [|[[k vr] x] d IH]; cbn [remove_private_tags flat_map];
    [reflexivity|].
  rewrite IH. unfold tag, VR, value; cbn [fst snd].
  now destruct (is_private k).
Qed.

Lemma fold_steps (mk : string -> Step) (act : string -> Dataset -> Dataset)
    (fields : list string) :
  (forall k d, act k d = apply_step (mk k) d) ->
  forall (acc : Step) (d : Dataset),
    fold_left (fun d k => act k d) fields (apply_step acc d)
    = apply_step (fold_left (fun acc k => then_step acc (mk k)) fields acc) d.
Proof.
  intros H. induction fields as [|k fields IH]; intros acc d; cbn [fold_left];
    [reflexivity|].
  now rewrite H, apply_step_then, IH.
Qed.

Lemma for_pop_steps (fields : list string) (d : Dataset) :
  for_pop fields d = apply_step (steps_of remove_step fields) d.
Proof.
  unfold for_pop, steps_of.
  rewrite <- (apply_step_id d) at 1.
  apply (fold_steps remove_step remove), remove_as_step.
Qed.

Lemma for_present_steps (f : string -> Step)
    (act : string -> Dataset -> Dataset) (fields : list string) (d : Dataset) :
  (forall k d, act k d = apply_step (on_key k (f k)) d) ->
  for_present fields act d
  = apply_step (steps_of (fun k => on_key k (f k)) fields) d.
Proof.
  intros H. unfold for_present, steps_of.
  rewrite <- (apply_step_id d) at 1.
  apply (fold_steps (fun k => on_key k (f k))
           (fun k d => if contains_key k d then act k d else d)).
  intros k d'. destruct (contains_key k d') eqn:E; [apply H|].
  symmetry; now apply apply_on_key_absent.
Qed.

Lemma redact_elements (d : FileDataset) :
  elements (redact d) = apply_step redact_step (elements d).
Proof.
  unfold redact, redact_step; cbn [elements].
  rewrite remove_private_tags_step.
  rewrite (for_present_steps (fun _ e => Some (tag e, VR e, VStr "20250419"))
             (fun k => set_value k (VStr "20250419")))
    by (intros k0 d0; exact (set_value_step k0 _ d0)).
  rewrite (for_present_steps (fun _ e => Some (tag e, VR e, VStr "094338"))
             (fun k => set_value k (VStr "094338")))
    by (intros k0 d0; exact (set_value_step k0 _ d0)).
  rewrite (for_present_steps
             (fun _ e => Some (tag e, VR e, empty_value_for_VR (VR e))) clear)
    by (intros k0 d0; exact (clear_as_step k0 d0)).
  rewrite (for_present_steps (fun _ _ => None) remove)
    by (intros k0 d0; exact (remove_as_step k0 d0)).
  rewrite for_pop_steps, !apply_step_then. reflexivity.
Qed.

Lemma redact_file_meta (d : FileDataset) :
  file_meta (redact d) = apply_step meta_step (file_meta d).
Proof. unfold redact; cbn [file_meta]. apply for_pop_steps. Qed.

Lemma contains_key_set_value (k k' : string) (v : Value) (d : Dataset) :
  contains_key k (set_value k' v d) = contains_key k d.
Proof.
  unfold contains_key, set_value.
  induction d as [|e d IH]; cbn [map existsb]; [reflexivity|].
  rewrite IH. f_equal. now destruct (key_eqb (tag e) (Std k')).
Qed.

Lemma get_set_value_same (k : string) (v : Value) (d : Dataset) :
  contains_key k d = true ->
  option_map value (get k (set_value k v d)) = Some v.
Proof.
  unfold contains_key, get, set_value.
  induction d as [|e d IH]; cbn [map existsb find]; [discriminate|].
  destruct (key_eqb (tag e) (Std k)) eqn:E.
  - intros _. cbn [tag fst]. unfold tag in E |- *. cbn [fst]. now rewrite E.
  - rewrite E. cbn [orb]. exact IH.
Qed.

Lemma get_set_value_other (k k' : string) (v : Value) (d : Dataset) :
  k <> k' ->
  option_map value (get k (set_value k' v d)) = option_map value (get k d).
Proof.
  intros Hne. unfold get, set_value.
  induction d as [|e d IH]; cbn [map find]; [reflexivity|].
  destruct (key_eqb (tag e) (Std k')) eqn:E'.
  - apply key_eqb_eq in E'. unfold tag at 1; cbn [fst]. rewrite E'.
    replace (key_eqb (Std k') (Std k)) with false; [exact IH|].
    symmetry. cbn. apply String.eqb_neq. congruence.
  - destruct (key_eqb (tag e) (Std k)); [reflexivity | exact IH].
Qed.

Lemma strip_private_value_idem :
  forall v, strip_private_value (strip_private_value v) = strip_private_value v.
Proof.
  fix IH 1. intros [|s|items]; cbn [strip_private_value]; try reflexivity.
  f_equal. rewrite map_map.
  induction items as [|d items IHitems]; cbn [map]; [reflexivity|].
  f_equal; [|exact IHitems].
  induction d as [|[[k vr] x] r IHr]; [reflexivity|].
  destruct (is_private k) eqn:Hk; [exact IHr|].
  rewrite Hk. f_equal; [|exact IHr]. f_equal. apply IH.
Qed.

Ltac in_list := cbn; repeat (first [left; reflexivity | right]).

Ltac unfold_steps :=
  cbv [anonymise_step_of redact_step restore_step meta_step steps_of
       then_step on_key set_step clear_step remove_step private_step
       tag VR value fold_left app fst snd key_eqb is_private
       DATE_FIELDS TIME_FIELDS NAME_FIELDS COMMENT_FIELDS ID_FIELDS
       SEQUENCE_FIELDS META_FIELDS] in *.

(** The cases of a keyword: one of those [anonymise] names, or none. *)
Ltac keyword_cases kw :=
  let Hin := fresh "Hin" in
  destruct (in_dec string_dec kw named_keywords) as [Hin | Hin];
  [ cbn in Hin; repeat (destruct Hin as [<- | Hin]); [.. | contradiction] | ].

Lemma not_named (kw x : string) :
  ~ In kw named_keywords -> In x named_keywords -> String.eqb kw x = false.
Proof. intros Hn Hx. apply String.eqb_neq. intros ->. contradiction. Qed.

Lemma anonymise_step_of_private (sex age pid : string) (g el : N) (vr : string)
    (v : Value) :
  anonymise_step_of sex age pid (Private g el, vr, v) = None.
Proof. reflexivity. Qed.

Lemma anonymise_step_of_other (sex age pid kw vr : string) (v : Value) :
  ~ In kw named_keywords ->
  anonymise_step_of sex age pid (Std kw, vr, v)
  = Some (Std kw, vr, strip_private_value v).
Proof.
  intros Hn. unfold_steps.
  repeat (rewrite (not_named kw) by (first [exact Hn | in_list]);
          unfold_steps).
  reflexivity.
Qed.

Lemma anonymise_step_of_idem (sex age pid : string) (e e' : DataElement) :
  anonymise_step_of sex age pid e = Some e' ->
  anonymise_step_of sex age pid e' = Some e'.
Proof.
  destruct e as [[[kw | g el] vr] v].
  - keyword_cases kw.
    all: try (cbn; intros H; try discriminate H; injection H as <-;
              cbn; rewrite ?strip_private_value_idem; reflexivity).
    rewrite (anonymise_step_of_other _ _ _ _ _ _ Hin). intros [= <-].
    rewrite (anonymise_step_of_other _ _ _ _ _ _ Hin).
    now rewrite strip_private_value_idem.
  - rewrite anonymise_step_of_private. discriminate.
Qed.

Lemma redact_step_tag (e e' : DataElement) :
  redact_step e = Some e' -> tag e' = tag e.
Proof.
  destruct e as [[[kw | g el] vr] v]; [|discriminate].
  keyword_cases kw.
  all: try (cbn; intros H; try discriminate H; injection H as <-; reflexivity).
  unfold_steps.
  repeat (rewrite (not_named kw) by (first [exact Hin | in_list]);
          unfold_steps).
  intros [= <-]. reflexivity.
Qed.

Lemma redact_step_keeps (k : string) (e : DataElement) :
  In k restored_fields -> redact_step e = None ->
  key_eqb (tag e) (Std k) = false.
Proof.
  intros Hk Hnone. destruct (key_eqb (tag e) (Std k)) eqn:E; [|reflexivity].
  apply key_eqb_eq in E. destruct e as [[key vr] v]. cbn in E. subst key.
  cbn in Hk. destruct Hk as [<- | [<- | [<- | []]]]; discriminate Hnone.
Qed.

Lemma meta_step_idem (e e' : DataElement) :
  meta_step e = Some e' -> meta_step e' = Some e'.
Proof.
  destruct e as [[[kw | g el] vr] v]; [|intros [= <-]; reflexivity].
  unfold_steps.
  destruct (String.eqb kw "PrivateInformationCreatorUID") eqn:E1;
    [discriminate|].
  destruct (String.eqb kw "PrivateInformation") eqn:E2; [discriminate|].
  intros [= <-]. now rewrite E1, E2.
Qed.

Lemma contains_key_apply_step (k : string) (f : Step) (d : Dataset) :
  (forall e e', f e = Some e' -> tag e' = tag e) ->
  (forall e, f e = None -> key_eqb (tag e) (Std k) = false) ->
  contains_key k (apply_step f d) = contains_key k d.
Proof.
  intros Htag Hkeep. unfold contains_key, apply_step.
  induction d as [|e d IH]; cbn [flat_map existsb]; [reflexivity|].
  rewrite existsb_app, IH. f_equal.
  destruct (f e) as [e'|] eqn:E; cbn [existsb].
  - rewrite (Htag _ _ E). apply orb_false_r.
  - symmetry; now apply Hkeep.
Qed.

Lemma contains_key_redact (k : string) (d : FileDataset) :
  In k restored_fields ->
  contains_key k (elements (redact d)) = contains_key k (elements d).
Proof.
  intros Hk. rewrite redact_elements.
  apply contains_key_apply_step; [exact redact_step_tag|].
  intros e. now apply redact_step_keeps.
Qed.

(** [anonymise] by cases on the three fields it restores. *)
Lemma anonymise_body_cases (d : FileDataset) (sex age pid : string) :
  let r := redact d in
  let e1 := set_value "PatientSex" (VStr (sex ++ " ")) (elements r) in
  let e2 := set_value "PatientAge" (VStr (zfill 3 age ++ "Y")) e1 in
  let e3 := set_value "PatientID" (VStr (pad_even pid)) e2 in
  anonymise_body d sex age pid =
  if contains_key "PatientSex" (elements d) then
    if contains_key "PatientAge" (elements d) then
      if contains_key "PatientID" (elements d) then
        Returned (mkFileDataset e3 (file_meta r))
      else Raised (KeyError "PatientID") (mkFileDataset e2 (file_meta r))
    else Raised (KeyError "PatientAge") (mkFileDataset e1 (file_meta r))
  else Raised (KeyError "PatientSex") r.
Proof.
  intros r e1 e2 e3. subst e3 e2 e1 r.
  unfold anonymise_body, assign, and_then. cbn [elements file_meta].
  rewrite ?contains_key_set_value.
  rewrite ?contains_key_redact by in_list.
  destruct (contains_key "PatientSex" (elements d)); [|reflexivity].
  cbn [elements file_meta]. rewrite ?contains_key_set_value.
  rewrite ?contains_key_redact by in_list.
  destruct (contains_key "PatientAge" (elements d)); [|reflexivity].
  cbn [elements file_meta]. rewrite ?contains_key_set_value.
  rewrite ?contains_key_redact by in_list.
  destruct (contains_key "PatientID" (elements d)); reflexivity.
Qed.

Lemma Returned_inj (a b : FileDataset) : Returned a = Returned b -> a = b.
Proof. congruence. Qed.

Lemma anonymise_body_elements (d d' : FileDataset) (sex age pid : string) :
  anonymise_body d sex age pid = Returned d' ->
  elements d'
  = apply_step (anonymise_step_of (sex ++ " ") (zfill 3 age ++ "Y") (pad_even pid))
               (elements d)
  /\ file_meta d' = apply_step meta_step (file_meta d).
Proof.
  rewrite anonymise_body_cases.
  destruct (contains_key "PatientSex" (elements d)); [|discriminate].
  destruct (contains_key "PatientAge" (elements d)); [|discriminate].
  destruct (contains_key "PatientID" (elements d)); [|discriminate].
  intros H; apply Returned_inj in H; subst d'. cbn [elements file_meta].
  rewrite !set_value_step, redact_elements, redact_file_meta, !apply_step_then.
  split; reflexivity.
Qed.


Section AnonymiserResults.

Variable env : Env.

Lemma anonymise_returned (d d' : FileDataset) (sex age pid : string)
    (w w' : World) :
  anonymise env d sex age pid w = (Returned d', w') <->
  anonymise_body d sex age pid = Returned d' /\ w' = w.
Proof.
  unfold anonymise. destruct (anonymise_body d sex age pid) as [d0 | e d0].
  - split; [intros [= -> ->]; auto | intros [[= ->] ->]; reflexivity].
  - split; [intros [=] | intros [[=] _]].
Qed.

Lemma anonymise_body_total (d : FileDataset) (sex age pid : string) :
  has_restored_fields d ->
  exists d', anonymise_body d sex age pid = Returned d'.
Proof.
  intros H. rewrite anonymise_body_cases.
  rewrite !H by in_list. eexists; reflexivity.
Qed.

Lemma anonymise_body_idem (d d' : FileDataset) (sex age pid : string) :
  anonymise_body d sex age pid = Returned d' ->
  anonymise_body d' sex age pid = Returned d'.
Proof.
  intros H.
  assert (Hf : has_restored_fields d').
  { revert H. rewrite anonymise_body_cases.
    destruct (contains_key "PatientSex" (elements d)) eqn:E1; [|discriminate].
    destruct (contains_key "PatientAge" (elements d)) eqn:E2; [|discriminate].
    destruct (contains_key "PatientID" (elements d)) eqn:E3; [|discriminate].
    intros H; apply Returned_inj in H; subst d'.
    intros k Hk. cbn [elements]. rewrite !contains_key_set_value.
    rewrite contains_key_redact by exact Hk.
    cbn in Hk. destruct Hk as [<- | [<- | [<- | []]]]; assumption. }
  destruct (anonymise_body_total d' sex age pid Hf) as [d'' H''].
  rewrite H''. f_equal.
  apply anonymise_body_elements in H as [He Hm], H'' as [He'' Hm''].
  destruct d' as [e' m'], d'' as [e'' m'']; cbn [elements file_meta] in *.
  subst e'' m''. f_equal.
  - rewrite He. apply apply_step_idem, anonymise_step_of_idem.
  - rewrite Hm. apply apply_step_idem, meta_step_idem.
Qed.

Lemma anonymise_body_values (d d' : FileDataset) (sex age pid : string) :
  anonymise_body d sex age pid = Returned d' ->
  value_of "PatientSex" d' = Some (VStr (sex ++ " "))
  /\ value_of "PatientAge" d' = Some (VStr (zfill 3 age ++ "Y"))
  /\ value_of "PatientID" d' = Some (VStr (pad_even pid)).
Proof.
  rewrite anonymise_body_cases.
  destruct (contains_key "PatientSex" (elements d)) eqn:E1; [|discriminate].
  destruct (contains_key "PatientAge" (elements d)) eqn:E2; [|discriminate].
  destruct (contains_key "PatientID" (elements d)) eqn:E3; [|discriminate].
  intros H; apply Returned_inj in H; subst d'.
  unfold value_of; cbn [elements].
  assert (N1 : "PatientSex" <> "PatientAge") by discriminate.
  assert (N2 : "PatientSex" <> "PatientID") by discriminate.
  assert (N3 : "PatientAge" <> "PatientID") by discriminate.
  repeat split.
  - rewrite (get_set_value_other _ _ _ _ N2), (get_set_value_other _ _ _ _ N1).
    apply get_set_value_same. now rewrite contains_key_redact by in_list.
  - rewrite (get_set_value_other _ _ _ _ N3).
    apply get_set_value_same.
    rewrite contains_key_set_value. now rewrite contains_key_redact by in_list.
  - apply get_set_value_same.
    rewrite !contains_key_set_value. now rewrite contains_key_redact by in_list.
Qed.

End AnonymiserResults.

(** ** C4: the anonymiser is idempotent *)

(** C4.  Applying [anonymise] with the same sex, age and identifier to a
    record it has already returned raises nothing and returns that record
    unchanged; and on any record that has the three fields it restores,
    [anonymise] returns whichever of the named redaction fields are absent,
    these being skipped. *)
Theorem anonymise_idempotent (env : Env) (d : FileDataset)
    (sex age pid : string) (w : World) :
  (forall d' w',
      anonymise env d sex age pid w = (Returned d', w') ->
      anonymise env d' sex age pid w' = (Returned d', w'))
  /\ (has_restored_fields d ->
      exists d', anonymise env d sex age pid w = (Returned d', w)).
Proof.
  split.
  - intros d' w' H. apply anonymise_returned in H as [H ->].
    apply anonymise_returned. split; [|reflexivity].
    exact (anonymise_body_idem d d' sex age pid H).
  - intros H. destruct (anonymise_body_total d sex age pid H) as [d' Hd'].
    exists d'. apply anonymise_returned. auto.
Qed.

Lemma anonymise_idempotent_sample :
  exists d',
    anonymise sample_env sample_record "F" "34" "25041909433812M" initial_world
    = (Returned d', initial_world)
    /\ anonymise sample_env d' "F" "34" "25041909433812M" initial_world
       = (Returned d', initial_world).
Proof.
  pose proof (anonymise_idempotent sample_env sample_record "F" "34"
                "25041909433812M" initial_world) as [Hidem Htotal].
  destruct Htotal as [d' Hd'].
  - intros k Hk. cbn in Hk.
    destruct Hk as [<- | [<- | [<- | []]]]; reflexivity.
  - exists d'. split; [exact Hd' | exact (Hidem d' initial_world Hd')].
Defined.

(** ** C5: the three restored fields *)

(** C5, as the code has it.  On a record that has the sex, age and
    patient-identifier elements, [anonymise] returns and these hold the sex
    code followed by a space, the age on three digits followed by [Y], and
    the identifier padded to even length.  A record that lacks one of them is
    not given it: [anonymise] logs and raises the [KeyError] of the first of
    the three, in the order sex, age, identifier, that the record lacks, and
    the record it leaves has the same ones of the three elements as
    before. *)
Theorem anonymise_restores_present_fields (env : Env) (d : FileDataset)
    (sex age pid : string) (w : World) :
  (has_restored_fields d ->
   exists d',
     anonymise env d sex age pid w = (Returned d', w)
     /\ value_of "PatientSex" d' = Some (VStr (sex ++ " "))
     /\ value_of "PatientAge" d' = Some (VStr (zfill 3 age ++ "Y"))
     /\ value_of "PatientID" d' = Some (VStr (pad_even pid)))
  /\ (forall k, In k restored_fields -> contains_key k (elements d) = false ->
      exists k' d',
        first_missing d = Some k'
        /\ In k' restored_fields
        /\ contains_key k' (elements d) = false
        /\ anonymise env d sex age pid w
           = (Raised (KeyError k') d',
              logging ERROR ("Failed to anonymize DICOM: "
                             ++ exc_text env (KeyError k')) w)
        /\ (forall k'', In k'' restored_fields ->
              contains_key k'' (elements d') = contains_key k'' (elements d))).
Proof.
  split.
  - intros H. destruct (anonymise_body_total d sex age pid H) as [d' Hd'].
    exists d'. split; [apply anonymise_returned; auto|].
    exact (anonymise_body_values d d' sex age pid Hd').
  - intros k Hk Habs. unfold anonymise, first_missing.
    rewrite anonymise_body_cases. cbn [find restored_fields].
    destruct (contains_key "PatientSex" (elements d)) eqn:E1;
      [destruct (contains_key "PatientAge" (elements d)) eqn:E2;
       [destruct (contains_key "PatientID" (elements d)) eqn:E3|]|];
      cbn [negb].
    + exfalso. cbn in Hk. destruct Hk as [<- | [<- | [<- | []]]]; congruence.
    + exists "PatientID"; eexists.
      split; [reflexivity|]. split; [in_list|]. split; [exact E3|].
      split; [reflexivity|]. intros k'' Hk''. cbn [elements].
      rewrite !contains_key_set_value. now apply contains_key_redact.
    + exists "PatientAge"; eexists.
      split; [reflexivity|]. split; [in_list|]. split; [exact E2|].
      split; [reflexivity|]. intros k'' Hk''. cbn [elements].
      rewrite !contains_key_set_value. now apply contains_key_redact.
    + exists "PatientSex"; eexists.
      split; [reflexivity|]. split; [in_list|]. split; [exact E1|].
      split; [reflexivity|]. intros k'' Hk''.
      now apply contains_key_redact.
Qed.

Lemma anonymise_restores_sample :
  exists d',
    anonymise sample_env sample_record "F" "7" "25041909433812M" initial_world
    = (Returned d', initial_world)
    /\ value_of "PatientSex" d' = Some (VStr "F ")
    /\ value_of "PatientAge" d' = Some (VStr "007Y")
    /\ value_of "PatientID" d' = Some (VStr "25041909433812M ").
Proof.
  apply (proj1 (anonymise_restores_present_fields sample_env sample_record
                  "F" "7" "25041909433812M" initial_world)).
  intros k Hk. cbn in Hk.
  destruct Hk as [<- | [<- | [<- | []]]]; reflexivity.
Defined.

(** C5 as stated fails: on a record without the sex element [anonymise]
    does not return; it raises [KeyError] and creates nothing. *)
Lemma anonymise_absent_field_raises :
  (forall d', fst (anonymise sample_env record_without_sex "F" "34"
                     "25041909433812M" initial_world) <> Returned d')
  /\ exists d',
       fst (anonymise sample_env record_without_sex "F" "34"
              "25041909433812M" initial_world)
       = Raised (KeyError "PatientSex") d'
       /\ contains_key "PatientSex" (elements d') = false.
Proof.
  split.
  - intros d'. vm_compute. discriminate.
  - eexists. split; vm_compute; reflexivity.
Qed.

(** ** The session processor, file by file *)

Section PerFile.

Variable env : Env.

Lemma anonymise_world (x : FileDataset) (sex age pid : string) (w : World) :
  written (snd (anonymise env x sex age pid w)) = written w
  /\ ticks (snd (anonymise env x sex age pid w)) = ticks w
  /\ dirs (snd (anonymise env x sex age pid w)) = dirs w.
Proof.
  unfold anonymise. destruct (anonymise_body x sex age pid); cbn; auto.
Qed.

(** A file that is processed without exception was loaded, matched the
    identity pattern and was anonymised with the identifier built from the
    token of the session; exactly one file was written for it, under the
    name of its index. *)
Lemma process_file_returns (root path : string) (date_time : option string)
    (names : list string) (idx : nat) (filename : string) (w w' : World)
    (u : unit) :
  process_file env root path date_time names idx filename w = (inr u, w') ->
  let file_path := path_join root filename in
  exists t x mater_id sex age d' save_to name,
    date_time = Some t
    /\ dcmread env w file_path = inr x
    /\ extract_id_sex_age file_path = inr (mater_id, sex, age)
    /\ anonymise_body x sex age (t ++ mater_id ++ "M") = Returned d'
    /\ save_to_of env path file_path mater_id (t ++ mater_id ++ "M")
       = inr save_to
    /\ nth_error names idx = Some name
    /\ written w'
       = (written w ++ [(path_join save_to ("EXP" ++ name ++ ".dcm"), d')])%list
    /\ ticks w' = ticks w.
Proof.
  intros H file_path.
  unfold process_file, bind, of_result, ret, anonymise_step, makedirs, save_as,
    validate_checksum in H.
  fold file_path in H.
  destruct (dcmread env w file_path) as [e|x] eqn:Hread; [discriminate H|].
  destruct (extract_id_sex_age file_path) as [e|[[mater_id sex] age]] eqn:Hex;
    [discriminate H|].
  destruct date_time as [t|]; [|discriminate H].
  destruct (anonymise env x sex age (t ++ mater_id ++ "M") w)
    as [[d'|e d'] w1] eqn:Han; [|discriminate H].
  apply anonymise_returned in Han as [Han ->].
  destruct (save_to_of env path file_path mater_id (t ++ mater_id ++ "M"))
    as [e|save_to] eqn:Hsave; [discriminate H|].
  destruct (makedirs_error env w save_to); [discriminate H|].
  destruct (nth_error names idx) as [name|] eqn:Hname; [|discriminate H].
  destruct (save_error env (add_dir save_to w)
              (path_join save_to ("EXP" ++ name ++ ".dcm")) d') as [[e o]|];
    [discriminate H|].
  exists t, x, mater_id, sex, age, d', save_to, name.
  destruct (reread_error env _ _); injection H as _ <-; cbn; auto 10.
Qed.

(** A file whose processing raises adds no file written in full. *)
Lemma process_file_raises (root path : string) (date_time : option string)
    (names : list string) (idx : nat) (filename : string) (w w' : World)
    (e : Exc) :
  process_file env root path date_time names idx filename w = (inl e, w') ->
  written w' = written w /\ ticks w' = ticks w.
Proof.
  intros H.
  unfold process_file, bind, of_result, ret, anonymise_step, makedirs, save_as,
    validate_checksum in H.
  destruct (dcmread env w _) as [e0|x]; [injection H as _ <-; auto|].
  destruct (extract_id_sex_age _) as [e0|[[mater_id sex] age]];
    [injection H as _ <-; auto|].
  destruct date_time as [t|]; [|injection H as _ <-; auto].
  pose proof (anonymise_world x sex age (t ++ mater_id ++ "M") w) as (Aw & At & _).
  destruct (anonymise env x sex age (t ++ mater_id ++ "M") w)
    as [[d'|e1 d'] w1]; cbn [snd] in Aw, At;
    [|injection H as _ <-; auto].
  destruct (save_to_of env path _ mater_id _) as [e0|save_to];
    [injection H as _ <-; auto|].
  destruct (makedirs_error env w1 save_to); [injection H as _ <-; auto|].
  destruct (nth_error names idx) as [name|]; [|injection H as _ <-; cbn; auto].
  destruct (save_error env _ _ d') as [[e0 [|]]|];
    [injection H as _ <-; cbn; auto ..|].
  destruct (reread_error env _ _); discriminate H.
Qed.

(** Without a token no file gets as far as its identifier. *)
Lemma process_file_unbound (root path : string) (names : list string)
    (idx : nat) (filename : string) (w : World) :
  exists e, process_file env root path None names idx filename w = (inl e, w).
Proof.
  unfold process_file, bind, of_result.
  destruct (dcmread env w _) as [e0|x]; [eauto|].
  destruct (extract_id_sex_age _) as [e0|[[mater_id sex] age]]; eauto.
Qed.


(** A valid file is written, whatever was done before it. *)
Lemma process_file_valid (args : Args) (t : string) (names : list string)
    (idx : nat) (filename : string) (w : World) :
  file_ok env args filename -> idx < List.length names ->
  exists w',
    process_file env (root args) (path args) (Some t) names idx filename w
    = (inr tt, w')
    /\ List.length (written w') = S (List.length (written w)).
Proof.
  intros (x & mater_id & sex & age & Hread & Hex & Hf & Hsave & Hmk & Hsv) Hidx.
  unfold process_file, bind, of_result, ret, anonymise_step, makedirs, save_as,
    validate_checksum.
  rewrite Hread, Hex.
  destruct (anonymise_body_total x sex age (t ++ mater_id ++ "M") Hf) as [d' Hd'].
  unfold anonymise. rewrite Hd'.
  destruct (Hsave (t ++ mater_id ++ "M")) as [save_to ->].
  rewrite Hmk.
  destruct (nth_error names idx) as [name|] eqn:Hname;
    [|apply nth_error_None in Hname; lia].
  rewrite Hsv.
  destruct (reread_error env _ _); eexists; split; try reflexivity;
    cbn; rewrite length_app; cbn; lia.
Qed.

End PerFile.

(** ** The loop over the files of a session *)

Section Loop.

Variable env : Env.
Variables root path : string.
Variable date_time : option string.
Variable names : list string.

(** Every file is accounted for: it adds either one written file or one
    entry to the failure list, and an entry is the path of a file of the
    session followed by the text of its exception. *)
Lemma for_each_file_accounts (files : list string) :
  forall (idx : nat) (problematic : list string) (w : World)
         (problematic' : list string) (w' : World),
    for_each_file env root path date_time names idx files problematic w
    = (problematic', w') ->
    exists fails recs,
      problematic' = (problematic ++ fails)%list
      /\ written w' = (written w ++ recs)%list
      /\ ticks w' = ticks w
      /\ List.length recs + List.length fails = List.length files
      /\ Forall (fun entry =>
                   exists f e, In f files
                               /\ entry = failure_entry env (path_join root f) e)
                fails.
Proof.
  induction files as [|f files IH]; intros idx problematic w problematic' w' H.
  - injection H as <- <-. exists [], []. rewrite !app_nil_r. auto.
  - cbn [for_each_file] in H.
    destruct (process_file env root path date_time names idx f w)
      as [[e|u] w1] eqn:Hf.
    + apply process_file_raises in Hf as [Hw Ht].
      apply IH in H as (fails & recs & -> & Hrecs & Hticks & Hlen & Hall).
      exists (failure_entry env (path_join root f) e :: fails), recs.
      cbn [written ticks logging] in *.
      rewrite <- app_assoc. cbn [app List.length].
      repeat split; try congruence; try lia.
      constructor.
      * exists f, e. split; [now left | reflexivity].
      * revert Hall. apply Forall_impl.
        intros entry (f' & e' & Hin & ->). exists f', e'. split; [now right|reflexivity].
    + apply process_file_returns in Hf
        as (t & x & m & s & a & d' & st & name & _ & _ & _ & _ & _ & _ & Hw & Ht).
      apply IH in H as (fails & recs & -> & Hrecs & Hticks & Hlen & Hall).
      exists fails, ((path_join st ("EXP" ++ name ++ ".dcm"), d') :: recs).
      rewrite Hrecs, Hw, <- app_assoc. cbn [app List.length].
      repeat split; try congruence; try lia.
      revert Hall. apply Forall_impl.
      intros entry (f' & e' & Hin & ->). exists f', e'. split; [now right|reflexivity].
Qed.

End Loop.

(** ** Sorting, indices and output names *)

Section Names.

Lemma string_leb_trans (a b c : string) :
  String.leb a b = true -> String.leb b c = true -> String.leb a c = true.
Proof.
  unfold String.leb. revert b c.
  induction a as [|x a IH]; intros [|y b] [|z c]; cbn [String.compare];
    try easy.
  unfold Ascii.compare.
  destruct (N.compare_spec (N_of_ascii x) (N_of_ascii y)) as [Exy|Lxy|Gxy],
           (N.compare_spec (N_of_ascii y) (N_of_ascii z)) as [Eyz|Lyz|Gyz],
           (N.compare_spec (N_of_ascii x) (N_of_ascii z)) as [Exz|Lxz|Gxz];
    try (exfalso; lia); try easy.
  apply IH.
Qed.

Lemma sorted_permutation_unique (l l' : list string) :
  StronglySorted (fun x y => String.leb x y = true) l ->
  StronglySorted (fun x y => String.leb x y = true) l' ->
  Permutation l l' -> l = l'.
Proof.
  revert l'. induction l as [|a l IH]; intros l' Hs Hs' Hp.
  - now apply Permutation_nil in Hp.
  - destruct l' as [|b l'].
    + apply Permutation_sym, Permutation_nil in Hp. discriminate.
    + apply StronglySorted_inv in Hs as [Hs Ha], Hs' as [Hs' Hb].
      assert (a = b) as <-.
      { assert (Hab : a = b \/ String.leb a b = true).
        { assert (Hin : In b (a :: l))
            by (apply (Permutation_in _ (Permutation_sym Hp)); now left).
          destruct Hin as [-> | Hin]; [now left|].
          right. rewrite Forall_forall in Ha. now apply Ha. }
        assert (Hba : a = b \/ String.leb b a = true).
        { assert (Hin : In a (b :: l'))
            by (apply (Permutation_in _ Hp); now left).
          destruct Hin as [-> | Hin]; [now left|].
          right. rewrite Forall_forall in Hb. now apply Hb. }
        destruct Hab as [|Hab]; [assumption|].
        destruct Hba as [|Hba]; [assumption|].
        now apply String.leb_antisym. }
      f_equal. apply IH; auto. now apply Permutation_cons_inv in Hp.
Qed.

Lemma sort_strongly_sorted (l : list string) :
  StronglySorted (fun x y => String.leb x y = true) (StringSort.sort l).
Proof.
  apply Sorted_StronglySorted.
  - intros a b c. apply string_leb_trans.
  - apply StringSort.Sorted_sort.
Qed.

(** The sorted list does not depend on the order of the listing. *)
Lemma sort_permutation (l l' : list string) :
  Permutation l l' -> StringSort.sort l = StringSort.sort l'.
Proof.
  intros Hp. apply sorted_permutation_unique; try apply sort_strongly_sorted.
  eapply Permutation_trans; [apply Permutation_sym, StringSort.Permuted_sort|].
  eapply Permutation_trans; [exact Hp | apply StringSort.Permuted_sort].
Qed.

Lemma digits_of_uint (d : Decimal.uint) :
  all_chars is_digit (NilEmpty.string_of_uint d) = true.
Proof. induction d; cbn [NilEmpty.string_of_uint all_chars]; auto. Qed.

Lemma digit_not_sign (c : ascii) :
  is_digit c = true -> (Ascii.eqb c "+" || Ascii.eqb c "-")%bool = false.
Proof.
  destruct c as [[] [] [] [] [] [] [] []]; cbn; intros H;
    try discriminate H; reflexivity.
Qed.

Lemma zfill_digits (width : nat) (s : string) :
  all_chars is_digit s = true ->
  zfill width s = repeat_char "0" (width - length s) ++ s.
Proof.
  unfold zfill. destruct s as [|c s]; [now rewrite append_nil_r|].
  cbn [all_chars]. intros H. apply andb_true_iff in H as [Hc _].
  now rewrite (digit_not_sign c Hc).
Qed.

Lemma nat_of_str_zeros (k : nat) (s : string) :
  nat_of_str (repeat_char "0" k ++ s) = nat_of_str s.
Proof.
  unfold nat_of_str. induction k as [|k IH]; [reflexivity|].
  cbn [repeat_char append NilEmpty.uint_of_string].
  destruct (NilEmpty.uint_of_string (repeat_char "0" k ++ s)) as [d|];
    destruct (NilEmpty.uint_of_string s) as [d'|]; cbn in *;
    try discriminate IH; try reflexivity.
  exact IH.
Qed.

Lemma nat_of_str_fmt_04d (n : nat) : nat_of_str (fmt_04d n) = Some n.
Proof.
  unfold fmt_04d, str_of_nat.
  rewrite zfill_digits by apply digits_of_uint.
  rewrite nat_of_str_zeros. unfold nat_of_str.
  rewrite NilEmpty.usu. cbn [option_map]. f_equal.
  apply DecimalNat.Unsigned.of_to.
Qed.

Lemma fmt_04d_injective (i j : nat) : fmt_04d i = fmt_04d j -> i = j.
Proof.
  intros H. apply (f_equal nat_of_str) in H.
  rewrite !nat_of_str_fmt_04d in H. congruence.
Qed.

Lemma fmt_04d_digits (n : nat) : all_chars is_digit (fmt_04d n) = true.
Proof.
  unfold fmt_04d, str_of_nat.
  rewrite zfill_digits by apply digits_of_uint.
  rewrite all_chars_append, digits_of_uint, all_chars_repeat; reflexivity.
Qed.

Lemma nth_error_names (n idx : nat) :
  idx < n -> nth_error (map fmt_04d (seq 0 n)) idx = Some (fmt_04d idx).
Proof.
  intros H. rewrite nth_error_map, nth_error_seq.
  apply Nat.ltb_lt in H. now rewrite H.
Qed.

Lemma append_inj_r (a b c : string) : a ++ c = b ++ c -> a = b.
Proof.
  intros H.
  assert (Hlen : length a = length b).
  { apply (f_equal length) in H. rewrite !length_append in H. lia. }
  revert b H Hlen. induction a as [|x a IH]; intros [|y b] H Hlen;
    try discriminate Hlen; [reflexivity|].
  cbn [append] in H. injection H as -> H. f_equal. apply IH; auto.
Qed.

Lemma basename_no_slash (b : string) : no_slash b = true -> basename b = b.
Proof.
  unfold no_slash. destruct b as [|c b]; [reflexivity|].
  cbn [all_chars basename]. intros H; apply andb_true_iff in H as [Hc Hb].
  unfold no_slash. rewrite Hb. apply negb_true_iff in Hc. now rewrite Hc.
Qed.

Lemma basename_after_slash (a b : string) :
  no_slash b = true -> basename (a ++ "/" ++ b) = b.
Proof.
  intros Hb. induction a as [|c a IH]; cbn [append basename].
  - now rewrite Hb.
  - replace (no_slash (a ++ String "/" b)) with false; [exact IH|].
    symmetry. unfold no_slash. rewrite all_chars_append. cbn [all_chars].
    change (Ascii.eqb "/" "/") with true. cbn. apply andb_false_r.
Qed.

Lemma ends_with_slash_split (a : string) :
  ends_with_slash a = true -> exists a0, a = a0 ++ "/".
Proof.
  induction a as [|c a IH]; [discriminate|].
  cbn [ends_with_slash]. destruct a as [|c' a].
  - intros H. apply Ascii.eqb_eq in H as ->. now exists "".
  - intros H. destruct (IH H) as [a0 ->]. now exists (String c a0).
Qed.

Lemma basename_join (a b : string) :
  no_slash b = true -> is_empty b = false -> basename (path_join a b) = b.
Proof.
  intros Hb Hne. unfold path_join.
  assert (Hp : prefix "/" b = false).
  { destruct b as [|c b]; [discriminate|]. unfold no_slash in Hb.
    cbn [all_chars] in Hb. apply andb_true_iff in Hb as [Hc _].
    apply negb_true_iff, Ascii.eqb_neq in Hc. cbn [prefix].
    destruct (ascii_dec "/" c); [congruence | reflexivity]. }
  rewrite Hp. destruct (is_empty a) eqn:Ea.
  - apply is_empty_true in Ea as ->. now apply basename_no_slash.
  - cbn [orb]. destruct (ends_with_slash a) eqn:Es.
    + destruct (ends_with_slash_split a Es) as [a0 ->].
      rewrite append_assoc. now apply basename_after_slash.
    + now apply basename_after_slash.
Qed.

Lemma output_name_no_slash (n : nat) :
  no_slash ("EXP" ++ fmt_04d n ++ ".dcm") = true.
Proof.
  unfold no_slash. cbn [append all_chars].
  rewrite all_chars_append.
  rewrite (all_chars_impl is_digit _ (fmt_04d n)).
  - reflexivity.
  - intros c Hc. now rewrite (digit_not_slash c Hc).
  - apply fmt_04d_digits.
Qed.

(** Two files of a session are written to different paths. *)
Lemma output_path_injective (st st' : string) (i j : nat) :
  path_join st ("EXP" ++ fmt_04d i ++ ".dcm")
  = path_join st' ("EXP" ++ fmt_04d j ++ ".dcm") -> i = j.
Proof.
  intros H. apply (f_equal basename) in H.
  rewrite !basename_join in H by (apply output_name_no_slash || reflexivity).
  cbn [append] in H. injection H as H.
  apply fmt_04d_injective. now apply append_inj_r in H.
Qed.

End Names.

(** ** The number of digits of a number *)








(** ** The timestamp token *)

Section Token.

Variable env : Env.

Lemma length_zfill (width : nat) (s : string) : width <= length (zfill width s).
Proof.
  unfold zfill. destruct s as [|c s].
  - rewrite length_repeat_char. cbn; lia.
  - destruct (Ascii.eqb c "+" || Ascii.eqb c "-")%bool; cbn [length];
      rewrite length_append, length_repeat_char; cbn [length]; lia.
Qed.

Lemma length_drop (n : nat) (s : string) : length (drop n s) = length s - n.
Proof.
  revert s; induction n as [|n IH]; intros [|c s]; cbn [drop length];
    auto; lia.
Qed.

(** Whatever the year, the token keeps the digits of the second at
    least. *)
Lemma token_length (k : nat) : 8 <= length (token_at env k).
Proof.
  unfold token_at, strftime_YmdHMS. rewrite length_drop, !length_append.
  pose proof (length_zfill 2 (str_of_nat (month (now env k)))).
  pose proof (length_zfill 2 (str_of_nat (day (now env k)))).
  pose proof (length_zfill 2 (str_of_nat (hour (now env k)))).
  pose proof (length_zfill 2 (str_of_nat (minute (now env k)))).
  pose proof (length_zfill 2 (str_of_nat (second (now env k)))).
  lia.
Qed.

Lemma token_not_empty (k : nat) : String.eqb "" (token_at env k) = false.
Proof.
  pose proof (token_length k) as H.
  destruct (token_at env k); [cbn in H; lia | reflexivity].
Qed.

Lemma read_clock_token (w : World) :
  read_clock env w = (token_at env (ticks w), tick w).
Proof. reflexivity. Qed.

(** The waiting loop ends only with a token other than the previous one,
    and does nothing but read the clock. *)
Lemma retry_clock_differs (fuel : nat) (last : string) :
  forall (date_time : string) (w : World) (t : string) (w' : World),
    retry_clock fuel env last date_time w = Some (t, w') ->
    t <> last /\ written w' = written w /\ dirs w' = dirs w /\ log w' = log w.
Proof.
  induction fuel as [|fuel IH]; intros date_time w t w'; cbn [retry_clock];
    destruct (String.eqb last date_time) eqn:E; try discriminate.
  - intros [= <- <-]. apply String.eqb_neq in E. auto.
  - rewrite read_clock_token. intros H. apply IH in H. cbn in H. exact H.
  - intros [= <- <-]. apply String.eqb_neq in E. auto.
Qed.

Lemma fresh_token_differs (fuel : nat) (last : string) (w : World)
    (t : string) (w' : World) :
  fresh_token fuel env last w = Some (t, w') ->
  t <> last /\ written w' = written w /\ dirs w' = dirs w /\ log w' = log w.
Proof.
  unfold fresh_token. rewrite read_clock_token. intros H.
  apply retry_clock_differs in H. cbn in H. exact H.
Qed.

(** The loop ends as soon as the clock shows another second. *)
Lemma retry_clock_terminates (last : string) (fuel : nat) :
  forall (date_time : string) (w : World),
    (fuel = 0 -> date_time <> last) ->
    (0 < fuel -> token_at env (ticks w + (fuel - 1)) <> last) ->
    exists t w', retry_clock fuel env last date_time w = Some (t, w').
Proof.
  induction fuel as [|fuel IH]; intros date_time w H0 H1; cbn [retry_clock];
    destruct (String.eqb last date_time) eqn:E; eauto.
  - apply String.eqb_eq in E. exfalso. now apply H0.
  - rewrite read_clock_token. apply IH.
    + intros ->. replace (ticks w) with (ticks w + (1 - 1)) by lia.
      apply H1. lia.
    + intros Hpos. cbn [tick ticks].
      replace (S (ticks w) + (fuel - 1)) with (ticks w + (S fuel - 1)) by lia.
      apply H1. lia.
Qed.

Lemma fresh_token_terminates (last : string) (fuel : nat) (w : World) :
  token_at env (ticks w + fuel) <> last ->
  exists t w', fresh_token fuel env last w = Some (t, w').
Proof.
  intros H. unfold fresh_token. rewrite read_clock_token.
  apply retry_clock_terminates.
  - intros ->. now rewrite Nat.add_0_r in H.
  - intros Hpos. cbn [tick ticks].
    now replace (S (ticks w) + (fuel - 1)) with (ticks w + fuel) by lia.
Qed.

(** With no previous token the first reading is taken. *)
Lemma fresh_token_first (fuel : nat) (w : World) :
  fresh_token fuel env "" w = Some (token_at env (ticks w), tick w).
Proof.
  unfold fresh_token. rewrite read_clock_token.
  destruct fuel; cbn [retry_clock]; now rewrite token_not_empty.
Qed.

End Token.

(** ** The session processor *)

Section Session.

Variable env : Env.

(** The course of a call on a session that has files. *)
Lemma process_folder_run (fuel : nat) (args : Args) (w : World)
    (res : list string * list string) (w' : World) :
  files args <> [] ->
  process_folder fuel env args w = Some (inr res, w') ->
  exists same date_time w1 problematic w2,
    same_visit env (cat args) (root args) (last_directory args) = inr same
    /\ (same = true -> date_time = None /\ w1 = w)
    /\ (same = false ->
        exists t, fresh_token fuel env (last_date_time args) w = Some (t, w1)
                  /\ date_time = Some t)
    /\ for_each_file env (root args) (path args) date_time
         (names_of (List.length (files args))) 0
         (StringSort.sort (files args)) [] w1 = (problematic, w2)
    /\ res = (problematic, [])
    /\ w' = logging INFO ("Anonymized: " ++ root args) w2.
Proof.
  intros Hne. unfold process_folder.
  destruct (files args) as [|f0 fs] eqn:Hfiles; [congruence|].
  destruct (same_visit env (cat args) (root args) (last_directory args))
    as [e|same]; [discriminate|].
  destruct same; cbn [negb].
  - destruct (for_each_file env (root args) (path args) None _ 0 _ [] w)
      as [problematic w2] eqn:Hloop.
    intros [= <- <-].
    exists true, None, w, problematic, w2.
    split; [reflexivity|]. split; [auto|]. split; [discriminate|].
    split; [exact Hloop|]. split; reflexivity.
  - destruct (fresh_token fuel env (last_date_time args) w) as [[t w1]|] eqn:Ht;
      [|discriminate].
    destruct (for_each_file env (root args) (path args) (Some t) _ 0 _ [] w1)
      as [problematic w2] eqn:Hloop.
    intros [= <- <-].
    exists false, (Some t), w1, problematic, w2.
    split; [reflexivity|]. split; [discriminate|]. split; [eauto|].
    split; [exact Hloop|]. split; reflexivity.
Qed.

(** A call returns whenever the clock moves on within [fuel] readings. *)
Lemma process_folder_returns (fuel : nat) (args : Args) (w : World) :
  token_at env (ticks w + fuel) <> last_date_time args ->
  exists r w', process_folder fuel env args w = Some (r, w').
Proof.
  intros Hclock. unfold process_folder.
  destruct (files args) as [|f0 fs]; [eauto|].
  destruct (same_visit env (cat args) (root args) (last_directory args))
    as [e|same]; [eauto|].
  destruct same; cbn [negb].
  - destruct (for_each_file env (root args) (path args) None _ 0 _ [] w); eauto.
  - destruct (fresh_token_terminates env _ fuel w Hclock) as (t & w1 & ->).
    destruct (for_each_file env (root args) (path args) (Some t) _ 0 _ [] w1);
      eauto.
Qed.

Lemma sort_length (l : list string) :
  List.length (StringSort.sort l) = List.length l.
Proof. symmetry. apply Permutation_length, StringSort.Permuted_sort. Qed.

Lemma sort_In (x : string) (l : list string) :
  In x (StringSort.sort l) <-> In x l.
Proof.
  split; apply Permutation_in;
    [apply Permutation_sym|]; apply StringSort.Permuted_sort.
Qed.

(** In the branch that does not generate a token every file fails and
    nothing is written. *)
Lemma for_each_file_unbound (root path : string) (names : list string)
    (files : list string) :
  forall (idx : nat) (problematic : list string) (w : World),
    exists fails w',
      for_each_file env root path None names idx files problematic w
      = ((problematic ++ fails)%list, w')
      /\ List.length fails = List.length files
      /\ written w' = written w.
Proof.
  induction files as [|f files IH]; intros idx problematic w.
  - exists [], w. now rewrite app_nil_r.
  - cbn [for_each_file].
    destruct (process_file_unbound env root path names idx f w) as [e ->].
    destruct (IH (S idx)
                (problematic ++ [failure_entry env (path_join root f) e])%list
                (logging ERROR ("Error processing file " ++ path_join root f
                                ++ ": " ++ exc_text env e) w))
      as (fails & w' & -> & Hlen & Hw).
    exists (failure_entry env (path_join root f) e :: fails), w'.
    rewrite <- app_assoc. cbn. auto.
Qed.

Lemma same_visit_branch_fails (fuel : nat) (args : Args) (w : World) :
  files args <> [] ->
  same_visit env (cat args) (root args) (last_directory args) = inr true ->
  exists problematic w',
    process_folder fuel env args w = Some (inr (problematic, []), w')
    /\ List.length problematic = List.length (files args)
    /\ written w' = written w.
Proof.
  intros Hne Hsame. unfold process_folder.
  destruct (files args) as [|f0 fs] eqn:Hfiles; [congruence|].
  rewrite Hsame. cbn [negb].
  destruct (for_each_file_unbound (root args) (path args)
              (map fmt_04d (seq 0 (List.length (f0 :: fs))))
              (StringSort.sort (f0 :: fs)) 0 [] w)
    as (fails & w' & -> & Hlen & Hw).
  exists fails, (logging INFO ("Anonymized: " ++ root args) w').
  cbn [app]. repeat split; auto. now rewrite Hlen, sort_length.
Qed.


End Session.

(** ** C7: the empty session *)

(** C7.  On a session directory without files [process_folder] returns at
    once, for any bound on the waiting loop: the failure list is empty, the
    empty-directory list holds that directory, and the world is untouched (no
    clock reading, no directory, no file, no log line).  In every call that
    returns its two lists, at most one of them is non-empty. *)
Theorem process_folder_empty_session (fuel : nat) (env : Env) (args : Args)
    (w : World) :
  (files args = [] ->
   process_folder fuel env args w = Some (inr ([], [root args]), w))
  /\ (forall res w',
        process_folder fuel env args w = Some (inr res, w') ->
        fst res = [] \/ snd res = []).
Proof.
  split.
  - intros H. unfold process_folder. now rewrite H.
  - intros res w' H. destruct (files args) as [|f0 fs] eqn:Hfiles.
    + unfold process_folder in H. rewrite Hfiles in H.
      injection H as <- _. now left.
    + apply process_folder_run in H as (? & ? & ? & ? & ? & _ & _ & _ & _ & -> & _);
        [now right | congruence].
Qed.

Lemma process_folder_empty_session_sample :
  process_folder 0 sample_env (sample_args []) initial_world
  = Some (inr ([], [sample_root]), initial_world).
Proof.
  apply (proj1 (process_folder_empty_session 0 sample_env (sample_args [])
                  initial_world)).
  reflexivity.
Defined.

(** ** C1: the novelty test and the token *)

(** C1, the code against the claim.  The second series folder of a visit,
    called with the first one as previous directory and with its token, is
    classified as not new; the previous token is not taken over: the local
    variable [date_time] was never assigned, no identifier is built, the file
    of the session lands in the failure list and nothing is written. *)
Theorem reuse_branch_builds_no_identifier :
  same_visit sample_env (cat sample_args_same_visit)
    (root sample_args_same_visit) (last_directory sample_args_same_visit)
  = inr true
  /\ exists w',
       process_folder 0 sample_env sample_args_same_visit initial_world
       = Some (inr (["/data/0001/12 F 034/T2_SAG_1/DICOM/EXP00000/c.dcm: cannot access local variable 'date_time' where it is not associated with a value"],
                    []), w')
       /\ written w' = [].
Proof.
  split; [reflexivity|].
  eexists. split; vm_compute; reflexivity.
Qed.

(** ** C9: the sessions of the driver *)

Lemma eqb_empty_false (s : string) :
  is_empty s = false -> String.eqb s "" = false.
Proof. destruct s; [discriminate | reflexivity]. Qed.

Lemma sub_scan_not_empty (pat repl s : string) :
  is_empty repl = false -> is_empty s = false ->
  is_empty (sub_scan pat repl 0 s) = false.
Proof.
  intros Hr Hs. destruct s as [|c s]; [discriminate|]. cbn [sub_scan].
  destruct (prefix pat (String c s)); [|reflexivity].
  rewrite is_empty_append, Hr. reflexivity.
Qed.

Lemma same_visit_main_cat (env : Env) (root : string) :
  is_empty root = false -> same_visit env main_cat root "" = inr false.
Proof.
  intros H. unfold same_visit.
  change (re_sub env (fst main_cat) (snd main_cat) root)
    with (@inr Exc string (sub_scan "T2_AX" "T2_SAG" 0 root)).
  change (re_sub env (snd main_cat) (fst main_cat) root)
    with (@inr Exc string (sub_scan "T2_SAG" "T2_AX" 0 root)).
  cbv beta iota.
  rewrite (eqb_empty_false (sub_scan "T2_AX" "T2_SAG" 0 root))
    by (apply sub_scan_not_empty; auto).
  rewrite (eqb_empty_false (sub_scan "T2_SAG" "T2_AX" 0 root))
    by (apply sub_scan_not_empty; auto).
  reflexivity.
Qed.

Lemma all_roots_In (env : Env) (path : string) (item : Args) :
  In item (all_roots env path) ->
  cat item = main_cat /\ last_directory item = "" /\ last_date_time item = ""
  /\ contains "EXP00000" (root item) = true.
Proof.
  unfold all_roots. rewrite in_map_iff.
  intros ([[r ds] fs] & <- & Hin). apply filter_In in Hin as [_ Hc].
  cbn. auto.
Qed.

(** C9.  Every work item [main] builds has the empty string as previous
    directory and as previous token.  [process_folder] therefore classifies
    its session as new, the first reading of the clock is its token without
    waiting, and a session with files is processed with that token: the
    branch that would reuse a token is never taken from the driver. *)
Theorem driver_sessions_are_new (env : Env) (dataset : string) (item : Args) :
  In item (all_roots env dataset) ->
  last_directory item = "" /\ last_date_time item = ""
  /\ same_visit env (cat item) (root item) (last_directory item) = inr false
  /\ forall fuel w,
       fresh_token fuel env (last_date_time item) w
       = Some (token_at env (ticks w), tick w)
       /\ (files item <> [] ->
           exists problematic w2,
             for_each_file env (root item) (path item)
               (Some (token_at env (ticks w)))
               (names_of (List.length (files item))) 0
               (StringSort.sort (files item)) [] (tick w) = (problematic, w2)
             /\ process_folder fuel env item w
                = Some (inr (problematic, []),
                        logging INFO ("Anonymized: " ++ root item) w2)).
Proof.
  intros Hin. apply all_roots_In in Hin as (Hcat & Hdir & Htok & Hroot).
  assert (Hsame : same_visit env (cat item) (root item) (last_directory item)
                  = inr false).
  { rewrite Hcat, Hdir. apply same_visit_main_cat.
    now apply (contains_nonempty "EXP00000"). }
  repeat split; auto.
  - rewrite Htok. apply fresh_token_first.
  - intros Hne. unfold process_folder.
    destruct (files item) as [|f0 fs] eqn:Hfiles; [congruence|].
    rewrite Hsame, Htok, fresh_token_first. cbn [negb].
    destruct (for_each_file env (root item) (path item)
                (Some (token_at env (ticks w)))
                (map fmt_04d (seq 0 (List.length (f0 :: fs)))) 0
                (StringSort.sort (f0 :: fs)) [] (tick w))
      as [problematic w2] eqn:Hloop.
    exists problematic, w2. split; [exact Hloop | reflexivity].
Qed.

Lemma driver_sessions_are_new_sample :
  same_visit sample_env main_cat sample_root "" = inr false
  /\ fresh_token 0 sample_env "" initial_world
     = Some ("250419094338", tick initial_world).
Proof.
  assert (Hin : In (mkArgs sample_root ["b.dcm"; "a.dcm"] "/data" main_cat "" "")
                   (all_roots sample_env "/data")) by (left; reflexivity).
  destruct (driver_sessions_are_new sample_env "/data" _ Hin)
    as (_ & _ & Hsame & Htoken).
  split; [exact Hsame|].
  exact (proj1 (Htoken 0 initial_world)).
Defined.

(** ** C2 and C10: the identifier in the record and in the path *)

Lemma mod2_even (n : nat) : Nat.eqb (n mod 2) 0 = Nat.even n.
Proof.
  destruct (Nat.even n) eqn:E.
  - apply Nat.even_spec in E as [k ->].
    now rewrite Nat.mul_comm, Nat.Div0.mod_mul.
  - assert (O : Nat.odd n = true) by (now rewrite <- Nat.negb_even, E).
    apply Nat.odd_spec in O as [k ->].
    now rewrite Nat.add_comm, Nat.mul_comm, Nat.Div0.mod_add.
Qed.

Lemma pad_even_odd (s : string) :
  pad_even s = if Nat.odd (length s) then s ++ " " else s.
Proof.
  unfold pad_even. rewrite mod2_even, <- Nat.negb_even.
  now destruct (Nat.even (length s)).
Qed.

Lemma pad_even_length (s : string) : Nat.even (length (pad_even s)) = true.
Proof.
  rewrite pad_even_odd. destruct (Nat.odd (length s)) eqn:O.
  - rewrite length_append. cbn [length].
    now rewrite Nat.add_1_r, Nat.even_succ.
  - now rewrite <- Nat.negb_odd, O.
Qed.





(** C2.  The value [anonymise] stores in the patient-identifier field is the
    identifier it was given, followed by one space exactly when its length is
    odd, so its length is even.  For a file of a session with timestamp token
    [t] the identifier given is [t], the raw session token extracted from the
    path and [M], in this order. *)
Theorem patient_id_is_padded_concatenation (env : Env) :
  (forall d sex age pid w d' w',
      anonymise env d sex age pid w = (Returned d', w') ->
      value_of "PatientID" d' = Some (VStr (pad_even pid))
      /\ pad_even pid = (if Nat.odd (length pid) then pid ++ " " else pid)
      /\ Nat.even (length (pad_even pid)) = true)
  /\ (forall root path t names idx filename w w' u,
        process_file env root path (Some t) names idx filename w = (inr u, w') ->
        exists raw sex age out d',
          extract_id_sex_age (path_join root filename) = inr (raw, sex, age)
          /\ written w' = (written w ++ [(out, d')])%list
          /\ value_of "PatientID" d' = Some (VStr (pad_even (t ++ raw ++ "M")))
          /\ Nat.even (length (pad_even (t ++ raw ++ "M"))) = true).
Proof.
  split.
  - intros d sex age pid w d' w' H. apply anonymise_returned in H as [H _].
    apply anonymise_body_values in H as (_ & _ & H).
    auto using pad_even_odd, pad_even_length.
  - intros root path t names idx filename w w' u H.
    apply process_file_returns in H
      as (t' & x & raw & sex & age & d' & st & name & [= <-] & _ & Hex & Han
          & _ & _ & Hw & _).
    exists raw, sex, age, (path_join st ("EXP" ++ name ++ ".dcm")), d'.
    apply anonymise_body_values in Han as (_ & _ & Han).
    auto using pad_even_length.
Qed.

Lemma patient_id_is_padded_sample :
  exists out d',
    written (snd (process_file sample_env sample_root "/data"
                    (Some "250419094338") (names_of 1) 0 "a.dcm" initial_world))
    = [(out, d')]
    /\ value_of "PatientID" d' = Some (VStr "25041909433812M ").
Proof.
  destruct (proj2 (patient_id_is_padded_concatenation sample_env)
              sample_root "/data" "250419094338" (names_of 1) 0 "a.dcm"
              initial_world
              (snd (process_file sample_env sample_root "/data"
                      (Some "250419094338") (names_of 1) 0 "a.dcm"
                      initial_world))
              tt)
    as (raw & sex & age & out & d' & Hex & Hw & Hid & _).
  - vm_compute. reflexivity.
  - exists out, d'. split; [exact Hw|].
    vm_compute in Hex. injection Hex as <- _ _. exact Hid.
Defined.

(** ** C10: the directory name and the identifier field *)









(** ** C3: a failing file does not stop the session *)

Lemma names_of_length (n : nat) : List.length (names_of n) = n.
Proof. unfold names_of. now rewrite length_map, length_seq. Qed.

Lemma process_folder_written (fuel : nat) (env : Env) (args : Args)
    (w w1 : World) (same : bool) (date_time : option string) :
  (same = true -> date_time = None /\ w1 = w) ->
  (same = false ->
   exists t, fresh_token fuel env (last_date_time args) w = Some (t, w1)
             /\ date_time = Some t) ->
  written w1 = written w.
Proof.
  intros Htrue Hfalse. destruct same.
  - now destruct (Htrue eq_refl) as [_ ->].
  - destruct (Hfalse eq_refl) as (t & Ht & _).
    now apply fresh_token_differs in Ht.
Qed.




Lemma length_written_positions (outcomes : list (option Exc)) :
  forall idx,
    List.length (written_positions outcomes idx) = written_count outcomes.
Proof.
  unfold written_count.
  induction outcomes as [|[e|] outcomes IH]; intros idx;
    cbn [written_positions filter List.length]; auto.
Qed.

(** When no file fails the indices are those of the files. *)
Lemma written_positions_all (env : Env) (root : string) (files : list string) :
  forall (outcomes : list (option Exc)) (idx : nat),
    List.length outcomes = List.length files ->
    failure_entries env root (combine files outcomes) = [] ->
    written_positions outcomes idx = seq idx (List.length files).
Proof.
  unfold failure_entries.
  induction files as [|f files IH]; intros [|o outcomes] idx Hlen Hnone;
    try discriminate Hlen; [reflexivity|].
  cbn [combine flat_map fst snd] in Hnone.
  destruct o as [e|]; [discriminate Hnone|].
  cbn [written_positions List.length seq app] in *.
  f_equal. apply IH; [lia | exact Hnone].
Qed.

(** The loop, file by file: every file has its outcome; a file that raises
    adds its entry to the failure list, and a file that does not is read,
    anonymised with the identifier of the session and written under the name
    of its own index, in the world left by the files before it. *)
Lemma for_each_file_trace (env : Env) (root path : string)
    (date_time : option string) (names : list string) (files : list string) :
  forall (idx : nat) (problematic : list string) (w : World)
         (problematic' : list string) (w' : World),
    for_each_file env root path date_time names idx files problematic w
    = (problematic', w') ->
    exists outcomes recs,
      List.length outcomes = List.length files
      /\ problematic'
         = (problematic ++ failure_entries env root (combine files outcomes))%list
      /\ written w' = (written w ++ recs)%list
      /\ List.length recs = List.length (written_positions outcomes idx)
      /\ (forall k e,
            nth_error outcomes k = Some (Some e) ->
            exists f w0 w0',
              nth_error files k = Some f
              /\ process_file env root path date_time names (idx + k) f w0
                 = (inl e, w0'))
      /\ forall j rec i,
           nth_error recs j = Some rec ->
           nth_error (written_positions outcomes idx) j = Some i ->
           exists f t name w0,
             idx <= i
             /\ nth_error files (i - idx) = Some f
             /\ date_time = Some t
             /\ nth_error names i = Some name
             /\ written w0 = (written w ++ firstn j recs)%list
             /\ ticks w0 = ticks w
             /\ written_from env root path t f name w0 rec.
Proof.
  induction files as [|f files IH]; intros idx problematic w problematic' w' H.
  - injection H as <- <-. exists [], []. cbn [List.length combine app].
    unfold failure_entries. cbn [flat_map written_positions List.length].
    rewrite !app_nil_r. repeat split; auto.
    + intros [|k] e Hk; discriminate Hk.
    + intros [|j] rec i Hj; discriminate Hj.
  - cbn [for_each_file] in H.
    destruct (process_file env root path date_time names idx f w)
      as [[e|u] w1] eqn:Hf.
    + pose proof Hf as Hraise.
      apply process_file_raises in Hf as [Hw Ht].
      apply IH in H
        as (outcomes & recs & Hlen & -> & Hrecs & Hcount & Hfail & Hall).
      exists (Some e :: outcomes), recs.
      cbn [written ticks logging] in Hrecs, Hall.
      unfold failure_entries in *.
      cbn [combine flat_map fst snd List.length written_positions].
      rewrite <- app_assoc. cbn [app].
      split; [congruence|]. split; [reflexivity|].
      split; [congruence|]. split; [exact Hcount|]. split.
      { intros [|k] e' Hk; cbn [nth_error] in Hk.
        - injection Hk as <-. exists f, w, w1. rewrite Nat.add_0_r. auto.
        - destruct (Hfail k e' Hk) as (f' & w0 & w0' & Hf' & Hrun).
          exists f', w0, w0'. split; [exact Hf'|].
          now replace (idx + S k) with (S idx + k) by lia. }
      intros j rec i Hj Hi.
      destruct (Hall j rec i Hj Hi)
        as (f' & t & name & w0 & Hle & Hf' & Hdt & Hname & Hw0 & Ht0 & Hfrom).
      exists f', t, name, w0.
      split; [lia|]. split.
      { replace (i - idx) with (S (i - S idx)) by lia. exact Hf'. }
      repeat split; auto; congruence.
    + apply process_file_returns in Hf
        as (t & x & m & s & a & d' & st & name & Hdt & Hread & Hex & Han & Hst
            & Hname & Hw & Ht).
      apply IH in H
        as (outcomes & recs & Hlen & -> & Hrecs & Hcount & Hfail & Hall).
      exists (None :: outcomes),
             ((path_join st ("EXP" ++ name ++ ".dcm"), d') :: recs).
      unfold failure_entries in *.
      cbn [combine flat_map fst snd List.length written_positions app].
      split; [congruence|]. split; [reflexivity|].
      split; [rewrite Hrecs, Hw, <- app_assoc; reflexivity|].
      split; [congruence|]. split.
      { intros [|k] e' Hk; cbn [nth_error] in Hk; [discriminate Hk|].
        destruct (Hfail k e' Hk) as (f' & w0 & w0' & Hf' & Hrun).
        exists f', w0, w0'. split; [exact Hf'|].
        now replace (idx + S k) with (S idx + k) by lia. }
      intros [|j] rec i Hj Hi; cbn [nth_error firstn] in *.
      * injection Hj as <-. injection Hi as <-.
        exists f, t, name, w. rewrite Nat.sub_diag, app_nil_r.
        repeat split; auto.
        exists x, m, s, a, st. cbn [fst snd]. auto.
      * destruct (Hall j rec i Hj Hi)
          as (f' & t' & name' & w0 & Hle & Hf' & Hdt' & Hname' & Hw0 & Ht0
              & Hfrom).
        exists f', t', name', w0.
        split; [lia|]. split.
        { replace (i - idx) with (S (i - S idx)) by lia. exact Hf'. }
        repeat split; auto; [|congruence].
        rewrite Hw0, Hw, <- app_assoc. reflexivity.
Qed.

(** The course of a call on a new session whose clock moves on. *)
Lemma process_folder_new_session (fuel : nat) (env : Env) (args : Args)
    (w : World) :
  files args <> [] ->
  same_visit env (cat args) (root args) (last_directory args) = inr false ->
  token_at env (ticks w + fuel) <> last_date_time args ->
  exists t w1 problematic w2,
    fresh_token fuel env (last_date_time args) w = Some (t, w1)
    /\ for_each_file env (root args) (path args) (Some t)
         (names_of (List.length (files args))) 0
         (StringSort.sort (files args)) [] w1 = (problematic, w2)
    /\ process_folder fuel env args w
       = Some (inr (problematic, []),
               logging INFO ("Anonymized: " ++ root args) w2).
Proof.
  intros Hne Hnew Hclock. unfold process_folder.
  destruct (files args) as [|f0 fs] eqn:Hfiles; [congruence|].
  rewrite Hnew. cbn [negb].
  destruct (fresh_token_terminates env _ fuel w Hclock) as (t & w1 & Ht).
  rewrite Ht.
  destruct (for_each_file env (root args) (path args) (Some t)
              (map fmt_04d (seq 0 (List.length (f0 :: fs)))) 0
              (StringSort.sort (f0 :: fs)) [] w1)
    as [problematic w2] eqn:Hloop.
  exists t, w1, problematic, w2.
  split; [reflexivity|]. split; [exact Hloop | reflexivity].
Qed.


Lemma re_sub_total (env : Env) :
  (forall p r s, exists x, regex_sub env p r s = inr x) ->
  forall p r s, exists x, re_sub env p r s = inr x.
Proof.
  intros H p r s. unfold re_sub.
  destruct (String.eqb p "DICOM(.*)" && is_empty r); [eauto|].
  destruct (is_literal p && is_plain_repl r); eauto.
Qed.

Lemma save_to_of_total (env : Env) :
  (forall p r s, exists x, regex_sub env p r s = inr x) ->
  forall path file_path mater_id pid,
    exists save_to, save_to_of env path file_path mater_id pid = inr save_to.
Proof.
  intros H path file_path mater_id pid. unfold save_to_of.
  destruct (re_sub_total env H "DICOM(.*)" "" file_path) as [s1 ->].
  destruct (re_sub_total env H path "Anonymised" s1) as [s2 ->].
  apply re_sub_total, H.
Qed.

Lemma sample_file_ok (files : list string) (f : string) :
  contains "/corrupt" (path_join sample_root f) = false ->
  extract_id_sex_age (path_join sample_root f) = inr ("12", "F", "034") ->
  file_ok sample_env (sample_args files) f.
Proof.
  intros Hc Hex. exists sample_record, "12", "F", "034".
  cbn [root path sample_args].
  split; [intros w0; cbn [dcmread sample_env]; now rewrite Hc|].
  split; [exact Hex|].
  split; [intros k Hk; cbn in Hk;
          destruct Hk as [<- | [<- | [<- | []]]]; reflexivity|].
  split; [intros pid; apply save_to_of_total; intros p r s; now exists s|].
  split; reflexivity.
Qed.


(** ** C6: the names of the output files *)

Lemma process_folder_permutation (fuel : nat) (env : Env) (args : Args)
    (w : World) (files' : list string) :
  Permutation (files args) files' ->
  process_folder fuel env (with_files args files') w
  = process_folder fuel env args w.
Proof.
  intros Hp. unfold process_folder, with_files.
  cbn [files root path cat last_directory last_date_time].
  pose proof (Permutation_length Hp) as Hlen.
  pose proof (sort_permutation _ _ Hp) as Hsort.
  destruct (files args) as [|f0 fs]; destruct files' as [|f0' fs'];
    try discriminate Hlen; [reflexivity|].
  now rewrite <- Hlen, <- Hsort.
Qed.

Lemma for_each_file_all_valid (env : Env) (args : Args) (t : string)
    (names : list string) (files : list string) :
  (forall f, In f files -> file_ok env args f) ->
  forall (idx : nat) (problematic : list string) (w : World),
    idx + List.length files <= List.length names ->
    exists w',
      for_each_file env (root args) (path args) (Some t) names idx files
        problematic w = (problematic, w').
Proof.
  intros Hok. induction files as [|f files IH]; intros idx problematic w Hlen.
  - now exists w.
  - cbn [for_each_file List.length] in *.
    destruct (process_file_valid env args t names idx f w) as (w1 & -> & _);
      [apply Hok; now left | lia |].
    apply IH; [intros f' Hf'; apply Hok; now right | lia].
Qed.

(** C6.  In a session with files, when no file fails, as many files are
    written as the session has, to paths different from one another, and the
    file at position [i] of the listing sorted in lexicographic order is the
    [i]-th file written: it is read, anonymised with the identifier built
    from the one token of the session and written under [EXP], the index [i]
    in decimal filled with zeros to four digits, and [.dcm], in the directory
    derived from its own path.  When the session is new, its clock moves on
    and every file is valid, the call returns with an empty failure list.
    The result of a call is the same for every order in which the files are
    listed. *)
Theorem process_folder_names_outputs (fuel : nat) (env : Env) (args : Args)
    (w : World) :
  files args <> [] ->
  let sorted := StringSort.sort (files args) in
  (Permutation (files args) sorted
   /\ StronglySorted (fun a b => String.leb a b = true) sorted)
  /\ (forall empty_dir w',
        process_folder fuel env args w = Some (inr ([], empty_dir), w') ->
        exists t w1 recs,
          fresh_token fuel env (last_date_time args) w = Some (t, w1)
          /\ written w' = (written w ++ recs)%list
          /\ List.length recs = List.length (files args)
          /\ NoDup (map fst recs)
          /\ forall i f,
               nth_error sorted i = Some f ->
               fmt_04d i
               = repeat_char "0" (4 - length (str_of_nat i)) ++ str_of_nat i
               /\ exists rec w0,
                    nth_error recs i = Some rec
                    /\ written w0 = (written w ++ firstn i recs)%list
                    /\ ticks w0 = ticks w1
                    /\ written_from env (root args) (path args) t f
                         (fmt_04d i) w0 rec)
  /\ (same_visit env (cat args) (root args) (last_directory args) = inr false ->
      token_at env (ticks w + fuel) <> last_date_time args ->
      (forall f, In f (files args) -> file_ok env args f) ->
      exists w', process_folder fuel env args w = Some (inr ([], []), w'))
  /\ (forall files',
        Permutation (files args) files' ->
        process_folder fuel env (with_files args files') w
        = process_folder fuel env args w).
Proof.
  intros Hne sorted. subst sorted.
  split; [|split; [|split; [|intros files'; apply process_folder_permutation]]].
  - split; [apply StringSort.Permuted_sort|].
    apply StringSort.StronglySorted_sort.
    intros a b c. apply string_leb_trans.
  - intros empty_dir w' H.
    apply process_folder_run in H
      as (same & dt & w1 & prob & w2 & Hsame & Htrue & Hfalse & Hloop & Hres & ->);
      [|exact Hne].
    injection Hres as <- _.
    pose proof (process_folder_written fuel env args w w1 same dt Htrue Hfalse)
      as Hw1.
    apply for_each_file_trace in Hloop
      as (outcomes & recs & Hlen & Hnone & Hrecs & Hcount & _ & Hall).
    cbn [app] in Hnone. symmetry in Hnone.
    rewrite (written_positions_all env (root args) _ outcomes 0 Hlen Hnone)
      in Hcount, Hall.
    rewrite length_seq, sort_length in Hcount.
    assert (Hpos : forall i f,
               nth_error (StringSort.sort (files args)) i = Some f ->
               exists rec t w0,
                 dt = Some t
                 /\ nth_error recs i = Some rec
                 /\ written w0 = (written w ++ firstn i recs)%list
                 /\ ticks w0 = ticks w1
                 /\ written_from env (root args) (path args) t f (fmt_04d i)
                      w0 rec).
    { intros i f Hf.
      assert (Hi : i < List.length (files args)).
      { rewrite <- sort_length. apply nth_error_Some. congruence. }
      destruct (nth_error recs i) as [rec|] eqn:Hrec;
        [|apply nth_error_None in Hrec; lia].
      destruct (Hall i rec i Hrec)
        as (f' & t & name & w0 & _ & Hf' & Hdt & Hname & Hw0 & Ht0 & Hfrom).
      { rewrite sort_length, nth_error_seq.
        apply Nat.ltb_lt in Hi. now rewrite Hi. }
      rewrite Nat.sub_0_r, Hf in Hf'. injection Hf' as <-.
      unfold names_of in Hname.
      rewrite (nth_error_names _ _ Hi) in Hname. injection Hname as <-.
      exists rec, t, w0. rewrite <- Hw1. auto. }
    assert (Hnew : exists t, fresh_token fuel env (last_date_time args) w
                             = Some (t, w1) /\ dt = Some t).
    { destruct same; [|now apply Hfalse].
      exfalso. destruct (Htrue eq_refl) as [-> _].
      destruct (StringSort.sort (files args)) as [|f0 fs] eqn:Hs.
      - apply (f_equal (@List.length string)) in Hs.
        rewrite sort_length in Hs.
        destruct (files args); [congruence | discriminate Hs].
      - destruct (Hpos 0 f0 eq_refl) as (_ & t & _ & Hdt & _).
        discriminate Hdt. }
    destruct Hnew as (t & Htok & ->).
    exists t, w1, recs. cbn [written logging].
    split; [exact Htok|]. split; [now rewrite Hrecs, Hw1|].
    split; [exact Hcount|]. split.
    + apply NoDup_nth_error. intros i j Hi Hij.
      rewrite length_map, Hcount, <- sort_length in Hi.
      destruct (nth_error (StringSort.sort (files args)) i) as [f|] eqn:Hf;
        [|apply nth_error_None in Hf; lia].
      destruct (Hpos i f Hf)
        as (rec & _ & _ & _ & Hrec & _ & _
            & (_ & _ & _ & _ & st & _ & _ & _ & _ & Hpath)).
      rewrite !nth_error_map, Hrec in Hij. cbn [option_map] in Hij.
      destruct (nth_error recs j) as [rec'|] eqn:Hrec'; [|discriminate Hij].
      assert (Hj : j < List.length (StringSort.sort (files args))).
      { rewrite sort_length, <- Hcount. apply nth_error_Some. congruence. }
      destruct (nth_error (StringSort.sort (files args)) j) as [f'|] eqn:Hf';
        [|apply nth_error_None in Hf'; lia].
      destruct (Hpos j f' Hf')
        as (rec'' & _ & _ & _ & Hrec'' & _ & _
            & (_ & _ & _ & _ & st' & _ & _ & _ & _ & Hpath')).
      rewrite Hrec' in Hrec''. injection Hrec'' as <-.
      cbn [option_map] in Hij. injection Hij as Hij.
      rewrite Hpath, Hpath' in Hij. now apply output_path_injective in Hij.
    + intros i f Hf. split.
      * unfold fmt_04d, str_of_nat. apply zfill_digits, digits_of_uint.
      * destruct (Hpos i f Hf)
          as (rec & t' & w0 & [= <-] & Hrec & Hw0 & Ht0 & Hfrom).
        exists rec, w0. auto.
  - intros Hnew Hclock Hok.
    destruct (process_folder_new_session fuel env args w Hne Hnew Hclock)
      as (t & w1 & prob & w2 & _ & Hloop & Hrun).
    destruct (for_each_file_all_valid env args t
                (names_of (List.length (files args)))
                (StringSort.sort (files args))) with (idx := 0)
                (problematic := @nil string) (w := w1) as (w'' & Hvalid).
    + intros f Hf. apply Hok. now apply sort_In.
    + rewrite names_of_length, sort_length. lia.
    + rewrite Hloop in Hvalid. injection Hvalid as -> _.
      eexists. exact Hrun.
Qed.

Lemma process_folder_names_outputs_sample :
  exists w' d,
    process_folder 0 sample_env (sample_args ["b.dcm"; "a.dcm"]) initial_world
    = Some (inr ([], []), w')
    /\ written w'
       = [("Anonymised/0001/25041909433812M F 034/T2_AX_1/EXP0000.dcm", d);
          ("Anonymised/0001/25041909433812M F 034/T2_AX_1/EXP0001.dcm", d)]
    /\ anonymise_body sample_record "F" "034" "25041909433812M" = Returned d
    /\ process_folder 0 sample_env (sample_args ["a.dcm"; "b.dcm"]) initial_world
       = Some (inr ([], []), w').
Proof.
  destruct (process_folder_names_outputs 0 sample_env
              (sample_args ["b.dcm"; "a.dcm"]) initial_world)
    as (_ & Hnames & Hreturns & Hperm); [discriminate|].
  destruct Hreturns as (w' & Hrun).
  - reflexivity.
  - vm_compute. discriminate.
  - intros f Hf. cbn in Hf.
    destruct Hf as [<- | [<- | []]]; apply sample_file_ok; reflexivity.
  - destruct (Hnames [] w' Hrun) as (t & w1 & recs & Htok & Hrecs & Hlen & _ & Hall).
    vm_compute in Htok. injection Htok as <- _.
    destruct (Hall 0 "a.dcm" eq_refl)
      as (_ & rec0 & w0 & Hrec0 & _ & _
          & (x0 & raw0 & sex0 & age0 & st0 & Hread0 & Hex0 & Han0 & Hst0 & Hp0)).
    destruct (Hall 1 "b.dcm" eq_refl)
      as (_ & rec1 & w0' & Hrec1 & _ & _
          & (x1 & raw1 & sex1 & age1 & st1 & Hread1 & Hex1 & Han1 & Hst1 & Hp1)).
    vm_compute in Hex0, Hex1.
    injection Hex0 as <- <- <-. injection Hex1 as <- <- <-.
    vm_compute in Hread0, Hread1.
    apply (f_equal (fun r => match r with inr x => x | inl _ => x0 end))
      in Hread0.
    apply (f_equal (fun r => match r with inr x => x | inl _ => x1 end))
      in Hread1.
    subst x0 x1.
    vm_compute in Hst0, Hst1.
    apply (f_equal (fun r => match r with inr x => x | inl _ => st0 end))
      in Hst0.
    apply (f_equal (fun r => match r with inr x => x | inl _ => st1 end))
      in Hst1.
    subst st0 st1.
    destruct recs as [|r0 [|r1 [|r2 recs]]]; try discriminate Hlen.
    cbn [nth_error] in Hrec0, Hrec1.
    injection Hrec0 as ->. injection Hrec1 as ->.
    destruct rec0 as [p0 d0], rec1 as [p1 d1]. cbn [fst snd] in *.
    assert (Hd : d1 = d0) by congruence. subst d1.
    exists w', d0.
    split; [exact Hrun|]. split; [rewrite Hrecs, Hp0, Hp1; reflexivity|].
    split; [exact Han0|].
    rewrite <- Hrun.
    apply (Hperm ["a.dcm"; "b.dcm"]). apply perm_swap.
Defined.

(** * Further properties of the code *)

(** ** What the redaction does to the record *)

Lemma strip_private_value_clean :
  forall v, no_private_value (strip_private_value v) = true.
Proof.
  fix IH 1. intros [|s|items]; cbn [strip_private_value no_private_value];
    try reflexivity.
  induction items as [|d items IHitems]; cbn [map forallb]; [reflexivity|].
  rewrite IHitems, andb_true_r.
  induction d as [|[[k vr] x] r IHr]; [reflexivity|].
  destruct (is_private k) eqn:Hk; [exact IHr|].
  rewrite Hk, IH, IHr. reflexivity.
Qed.

Lemma no_private_forallb (d : Dataset) :
  no_private d
  = forallb (fun e => negb (is_private (tag e)) && no_private_value (value e)) d.
Proof.
  induction d as [|[[k vr] x] d IH]; cbn [no_private forallb]; [reflexivity|].
  now rewrite IH.
Qed.

Lemma remove_private_tags_clean (d : Dataset) :
  no_private (remove_private_tags d) = true.
Proof.
  induction d as [|[[k vr] x] d IH]; cbn [remove_private_tags]; [reflexivity|].
  destruct (is_private k) eqn:Hk; [exact IH|].
  cbn [no_private]. now rewrite Hk, strip_private_value_clean, IH.
Qed.

Lemma no_private_apply_step (f : Step) (d : Dataset) :
  (forall e e', f e = Some e' ->
                negb (is_private (tag e)) && no_private_value (value e) = true ->
                negb (is_private (tag e')) && no_private_value (value e') = true) ->
  no_private d = true -> no_private (apply_step f d) = true.
Proof.
  intros Hf. rewrite !no_private_forallb. unfold apply_step.
  induction d as [|e d IH]; cbn [forallb flat_map]; [reflexivity|].
  intros H. apply andb_true_iff in H as [He Hd].
  rewrite forallb_app, IH by exact Hd.
  destruct (f e) as [e'|] eqn:E; cbn [forallb]; [|reflexivity].
  now rewrite (Hf _ _ E He).
Qed.

Lemma empty_value_clean (vr : string) :
  no_private_value (empty_value_for_VR vr) = true.
Proof.
  unfold empty_value_for_VR. destruct (String.eqb vr "SQ"); [reflexivity|].
  now destruct (existsb (String.eqb vr) text_VRs).
Qed.

Lemma no_private_set_value (k : string) (s : string) (d : Dataset) :
  no_private d = true -> no_private (set_value k (VStr s) d) = true.
Proof.
  rewrite set_value_step. apply no_private_apply_step.
  intros e e'. unfold set_step, on_key.
  destruct (key_eqb (tag e) (Std k)); intros [= <-]; [|auto].
  unfold tag, value; cbn [fst snd]. now rewrite andb_true_r, andb_true_iff.
Qed.

Lemma no_private_clear (k : string) (d : Dataset) :
  no_private d = true -> no_private (clear k d) = true.
Proof.
  rewrite clear_as_step. apply no_private_apply_step.
  intros e e'. unfold clear_step, on_key.
  destruct (key_eqb (tag e) (Std k)); intros [= <-]; [|auto].
  unfold tag, value, VR; cbn [fst snd]. rewrite empty_value_clean, andb_true_r.
  now rewrite andb_true_iff.
Qed.

Lemma no_private_remove (k : string) (d : Dataset) :
  no_private d = true -> no_private (remove k d) = true.
Proof.
  rewrite remove_as_step. apply no_private_apply_step.
  intros e e'. unfold remove_step, on_key.
  destruct (key_eqb (tag e) (Std k)); intros [= <-]; auto.
Qed.

Lemma no_private_for_present (fields : list string)
    (act : string -> Dataset -> Dataset) :
  (forall k d, no_private d = true -> no_private (act k d) = true) ->
  forall d, no_private d = true -> no_private (for_present fields act d) = true.
Proof.
  intros Hact. unfold for_present.
  induction fields as [|k fields IH]; intros d Hd; cbn [fold_left]; [exact Hd|].
  apply IH. destruct (contains_key k d); auto.
Qed.

Lemma no_private_for_pop (fields : list string) :
  forall d, no_private d = true -> no_private (for_pop fields d) = true.
Proof.
  unfold for_pop.
  induction fields as [|k fields IH]; intros d Hd; cbn [fold_left]; [exact Hd|].
  apply IH. now apply no_private_remove.
Qed.

Lemma redact_clean (d : FileDataset) : no_private (elements (redact d)) = true.
Proof.
  unfold redact. cbn [elements].
  apply no_private_for_pop.
  apply no_private_for_present; [exact no_private_remove|].
  apply no_private_for_present; [exact no_private_clear|].
  apply no_private_for_present; [intros; now apply no_private_set_value|].
  apply no_private_for_present; [intros; now apply no_private_set_value|].
  apply remove_private_tags_clean.
Qed.

(** The record [anonymise] leaves is the redacted record with the first
    few of the three restored fields assigned. *)
Lemma outcome_record_cases (d : FileDataset) (sex age pid : string) :
  exists sets : list (string * string),
    Forall (fun kv => In (fst kv) restored_fields) sets
    /\ elements (outcome_record (anonymise_body d sex age pid))
       = fold_left (fun e kv => set_value (fst kv) (VStr (snd kv)) e) sets
           (elements (redact d))
    /\ file_meta (outcome_record (anonymise_body d sex age pid))
       = file_meta (redact d).
Proof.
  rewrite anonymise_body_cases.
  destruct (contains_key "PatientSex" (elements d));
    [destruct (contains_key "PatientAge" (elements d));
     [destruct (contains_key "PatientID" (elements d))|]|].
  - exists [("PatientSex", sex ++ " "); ("PatientAge", zfill 3 age ++ "Y");
            ("PatientID", pad_even pid)].
    split; [repeat (apply Forall_cons; [in_list|]); apply Forall_nil
          | split; reflexivity].
  - exists [("PatientSex", sex ++ " "); ("PatientAge", zfill 3 age ++ "Y")].
    split; [repeat (apply Forall_cons; [in_list|]); apply Forall_nil
          | split; reflexivity].
  - exists [("PatientSex", sex ++ " ")].
    split; [repeat (apply Forall_cons; [in_list|]); apply Forall_nil
          | split; reflexivity].
  - exists []. split; [constructor | split; reflexivity].
Qed.

(** X1.  Whether [anonymise] returns or raises, the record it leaves has no
    private element, neither at the top level nor inside a sequence that
    remains: the private tags are removed first, and nothing that follows
    brings one back. *)
Theorem anonymise_leaves_no_private_element (d : FileDataset)
    (sex age pid : string) :
  no_private (elements (outcome_record (anonymise_body d sex age pid))) = true.
Proof.
  destruct (outcome_record_cases d sex age pid) as (sets & _ & -> & _).
  pose proof (redact_clean d) as H. revert H.
  generalize (elements (redact d)).
  induction sets as [|[k v] sets IH]; intros e He; cbn [fold_left fst snd];
    [exact He|].
  apply IH. now apply no_private_set_value.
Qed.

Lemma get_apply_step (k : string) (f : Step) (g : DataElement -> DataElement)
    (d : Dataset) :
  (forall e e', f e = Some e' -> tag e' = tag e) ->
  (forall e, key_eqb (tag e) (Std k) = true -> f e = Some (g e)) ->
  get k (apply_step f d) = option_map g (get k d).
Proof.
  intros Htag Hk. unfold get, apply_step.
  induction d as [|e d IH]; cbn [flat_map find]; [reflexivity|].
  destruct (key_eqb (tag e) (Std k)) eqn:E.
  - rewrite (Hk e E). cbn [app find].
    now rewrite (Htag _ _ (Hk e E)), E.
  - destruct (f e) as [e'|] eqn:Ef; cbn [app find]; [|exact IH].
    now rewrite (Htag _ _ Ef), E.
Qed.

Lemma contains_key_removed (k : string) (f : Step) (d : Dataset) :
  (forall e e', f e = Some e' -> tag e' = tag e) ->
  (forall e, key_eqb (tag e) (Std k) = true -> f e = None) ->
  contains_key k (apply_step f d) = false.
Proof.
  intros Htag Hk. unfold contains_key, apply_step.
  induction d as [|e d IH]; cbn [flat_map existsb]; [reflexivity|].
  rewrite existsb_app, IH, orb_false_r.
  destruct (f e) as [e'|] eqn:Ef; cbn [existsb]; [|reflexivity].
  rewrite orb_false_r, (Htag _ _ Ef).
  destruct (key_eqb (tag e) (Std k)) eqn:E; [|reflexivity].
  rewrite (Hk e E) in Ef. discriminate.
Qed.

Lemma get_set_value_other_element (k k' : string) (v : Value) (d : Dataset) :
  k <> k' -> get k (set_value k' v d) = get k d.
Proof.
  intros Hne. unfold get, set_value.
  induction d as [|e d IH]; cbn [map find]; [reflexivity|].
  destruct (key_eqb (tag e) (Std k')) eqn:E'.
  - apply key_eqb_eq in E'. unfold tag at 1; cbn [fst]. rewrite E'.
    replace (key_eqb (Std k') (Std k)) with false; [exact IH|].
    symmetry. cbn. apply String.eqb_neq. congruence.
  - destruct (key_eqb (tag e) (Std k)); [reflexivity | exact IH].
Qed.

Lemma get_restored_sets (k : string) (sets : list (string * string)) :
  ~ In k restored_fields ->
  Forall (fun kv => In (fst kv) restored_fields) sets ->
  forall e,
    get k (fold_left (fun e kv => set_value (fst kv) (VStr (snd kv)) e) sets e)
    = get k e.
Proof.
  intros Hk Hsets. induction Hsets as [|[k' v] sets Hin _ IH]; intros e;
    cbn [fold_left fst snd] in *; [reflexivity|].
  rewrite IH. apply get_set_value_other_element. intros ->. contradiction.
Qed.

Lemma contains_key_restored_sets (k : string) (sets : list (string * string)) :
  forall e,
    contains_key k
      (fold_left (fun e kv => set_value (fst kv) (VStr (snd kv)) e) sets e)
    = contains_key k e.
Proof.
  induction sets as [|[k' v] sets IH]; intros e; cbn [fold_left fst snd];
    [reflexivity|].
  now rewrite IH, contains_key_set_value.
Qed.

(** The element of keyword [k] after [anonymise], for a keyword other than
    the three restored ones, is the one the redaction leaves. *)
Lemma outcome_get (d : FileDataset) (sex age pid k : string) :
  ~ In k restored_fields ->
  get k (elements (outcome_record (anonymise_body d sex age pid)))
  = get k (apply_step redact_step (elements d)).
Proof.
  intros Hk.
  destruct (outcome_record_cases d sex age pid) as (sets & Hsets & -> & _).
  now rewrite (get_restored_sets k sets Hk Hsets), redact_elements.
Qed.

Lemma outcome_contains_key (d : FileDataset) (sex age pid k : string) :
  contains_key k (elements (outcome_record (anonymise_body d sex age pid)))
  = contains_key k (apply_step redact_step (elements d)).
Proof.
  destruct (outcome_record_cases d sex age pid) as (sets & _ & -> & _).
  now rewrite contains_key_restored_sets, redact_elements.
Qed.

(** The step of the redaction on an element of a given keyword. *)
Ltac redact_at k :=
  let e := fresh "e" in
  let E := fresh "E" in
  intros e E; apply key_eqb_eq in E;
  destruct e as [[key vr] v]; cbn [tag fst] in E; subst key; reflexivity.

Ltac not_restored := cbn; intuition discriminate.

(** X2.  After [anonymise], returned or not, each of the two date fields
    and the time field is present exactly if it was, with its tag and value
    representation, and holds the fixed date [20250419], respectively the
    fixed time [094338]. *)
Theorem anonymise_fixes_dates_and_times (d : FileDataset)
    (sex age pid : string) :
  let d' := outcome_record (anonymise_body d sex age pid) in
  Forall (fun k => get k (elements d')
                   = option_map (with_value (VStr "20250419"))
                       (get k (elements d))) DATE_FIELDS
  /\ Forall (fun k => get k (elements d')
                      = option_map (with_value (VStr "094338"))
                          (get k (elements d))) TIME_FIELDS.
Proof.
  cbv zeta. split; repeat (apply Forall_cons; [|]); try apply Forall_nil;
    (rewrite outcome_get by not_restored;
     apply get_apply_step; [exact redact_step_tag|]).
  - redact_at "DateOfLastCalibration".
  - redact_at "PatientBirthDate".
  - redact_at "TimeOfLastCalibration".
Qed.

(** X3.  After [anonymise], returned or not, each name field and the
    comment field is present exactly if it was, with its tag and value
    representation, and holds the empty value of its value representation:
    these fields are emptied, not deleted. *)
Theorem anonymise_clears_names_and_comments (d : FileDataset)
    (sex age pid : string) :
  let d' := outcome_record (anonymise_body d sex age pid) in
  Forall (fun k => get k (elements d') = option_map cleared (get k (elements d)))
         (NAME_FIELDS ++ COMMENT_FIELDS)%list.
Proof.
  cbv zeta. repeat (apply Forall_cons; [|]); try apply Forall_nil;
    (rewrite outcome_get by not_restored;
     apply get_apply_step; [exact redact_step_tag|]).
  - redact_at "InstitutionName".
  - redact_at "InstitutionAddress".
  - redact_at "ReferringPhysicianName".
  - redact_at "ImageComments".
Qed.

Lemma meta_step_tag (e e' : DataElement) : meta_step e = Some e' -> e' = e.
Proof.
  destruct e as [[[kw | g el] vr] v]; [|intros [= <-]; reflexivity].
  unfold_steps.
  destruct (String.eqb kw "PrivateInformationCreatorUID"); [discriminate|].
  destruct (String.eqb kw "PrivateInformation"); [discriminate|].
  now intros [= <-].
Qed.

Lemma meta_step_filter (m : Dataset) :
  apply_step meta_step m = filter kept_meta m.
Proof.
  unfold apply_step. induction m as [|e m IH]; cbn [flat_map filter];
    [reflexivity|].
  rewrite IH. destruct e as [[[kw | g el] vr] v]; [|reflexivity].
  unfold kept_meta. unfold_steps. cbn [existsb].
  destruct (String.eqb kw "PrivateInformationCreatorUID"); [reflexivity|].
  destruct (String.eqb kw "PrivateInformation"); reflexivity.
Qed.

(** X4.  After [anonymise], returned or not, the record has no element of
    the identifier field and none of the sequence field, and its file meta
    information is the one it had without the two private-information
    elements, in the same order. *)
Theorem anonymise_deletes_identifiers_and_sequences (d : FileDataset)
    (sex age pid : string) :
  let d' := outcome_record (anonymise_body d sex age pid) in
  Forall (fun k => contains_key k (elements d') = false)
         (ID_FIELDS ++ SEQUENCE_FIELDS)%list
  /\ file_meta d' = filter kept_meta (file_meta d).
Proof.
  cbv zeta. split.
  - repeat (apply Forall_cons; [|]); try apply Forall_nil;
      (rewrite outcome_contains_key;
       apply contains_key_removed; [exact redact_step_tag|]).
    + redact_at "IrradiationEventUID".
    + redact_at "RequestAttributesSequence".
  - destruct (outcome_record_cases d sex age pid) as (sets & _ & _ & ->).
    now rewrite redact_file_meta, meta_step_filter.
Qed.

Lemma redact_step_other (kw vr : string) (v : Value) :
  ~ In kw redacted_keywords ->
  redact_step (Std kw, vr, v) = Some (Std kw, vr, strip_private_value v).
Proof.
  intros Hn.
  assert (Hneq : forall x, In x redacted_keywords -> String.eqb kw x = false).
  { intros x Hx. apply String.eqb_neq. intros ->. contradiction. }
  unfold_steps.
  repeat (rewrite Hneq by in_list; unfold_steps).
  reflexivity.
Qed.

(** X5.  [anonymise], returned or not, leaves every element whose keyword
    it does not name where it is, with its tag and value representation; its
    value is changed only in that private elements nested in it are removed.
    The patient's name is such an element. *)
Theorem anonymise_keeps_unnamed_fields (d : FileDataset)
    (sex age pid k : string) :
  ~ In k named_keywords ->
  get k (elements (outcome_record (anonymise_body d sex age pid)))
  = option_map stripped (get k (elements d)).
Proof.
  intros Hk.
  rewrite outcome_get by (intros H; apply Hk; cbn in H |- *; tauto).
  apply get_apply_step; [exact redact_step_tag|].
  intros e E. apply key_eqb_eq in E.
  destruct e as [[key vr] v]. cbn [tag fst] in E. subst key.
  apply redact_step_other.
  intros H. apply Hk. cbn in H |- *. tauto.
Qed.

Lemma anonymise_keeps_patient_name :
  get "PatientName"
    (elements (outcome_record
                 (anonymise_body record_with_name "F" "34" "25041909433812M")))
  = Some (Std "PatientName", "PN", VStr "ROSSI^MARIA").
Proof.
  rewrite (anonymise_keeps_unnamed_fields record_with_name "F" "34"
             "25041909433812M" "PatientName").
  - reflexivity.
  - cbn. intuition discriminate.
Defined.

Lemma map_tag_apply_step (f : Step) (d : Dataset) :
  (forall e e', f e = Some e' -> tag e' = tag e) ->
  map tag (apply_step f d) = map tag (filter (kept_by f) d).
Proof.
  intros Htag. unfold apply_step, kept_by.
  induction d as [|e d IH]; cbn [flat_map filter map]; [reflexivity|].
  rewrite map_app, IH.
  destruct (f e) as [e'|] eqn:E; cbn [map app]; [|reflexivity].
  now rewrite (Htag _ _ E).
Qed.

Lemma map_tag_set_value (k : string) (v : Value) (d : Dataset) :
  map tag (set_value k v d) = map tag d.
Proof.
  unfold set_value. rewrite map_map. apply map_ext.
  intros e. now destruct (key_eqb (tag e) (Std k)).
Qed.

Lemma map_tag_restored_sets (sets : list (string * string)) :
  forall e,
    map tag (fold_left (fun e kv => set_value (fst kv) (VStr (snd kv)) e) sets e)
    = map tag e.
Proof.
  induction sets as [|[k v] sets IH]; intros e; cbn [fold_left fst snd];
    [reflexivity|].
  now rewrite IH, map_tag_set_value.
Qed.

Lemma NoDup_map_filter {A B : Type} (g : A -> B) (p : A -> bool) (l : list A) :
  NoDup (map g l) -> NoDup (map g (filter p l)).
Proof.
  induction l as [|a l IH]; cbn [map filter]; [auto|].
  intros H. apply NoDup_cons_iff in H as [Hin Hnd].
  destruct (p a); cbn [map]; [|auto].
  apply NoDup_cons; [|auto].
  intros Hin'. apply Hin. apply in_map_iff in Hin' as (x & <- & Hx).
  apply filter_In in Hx as [Hx _]. now apply in_map.
Qed.

(** X6.  [anonymise], returned or not, never adds an element: the tags of
    the record it leaves are tags the record had, in the order they had, there
    are no more elements than before, and if no tag occurred twice none does
    afterwards. *)
Theorem anonymise_adds_no_element (d : FileDataset) (sex age pid : string) :
  let d' := outcome_record (anonymise_body d sex age pid) in
  map tag (elements d') = map tag (filter (kept_by redact_step) (elements d))
  /\ incl (map tag (elements d')) (map tag (elements d))
  /\ List.length (elements d') <= List.length (elements d)
  /\ (NoDup (map tag (elements d)) -> NoDup (map tag (elements d'))).
Proof.
  cbv zeta.
  assert (Htags : map tag (elements (outcome_record
                                       (anonymise_body d sex age pid)))
                  = map tag (filter (kept_by redact_step) (elements d))).
  { destruct (outcome_record_cases d sex age pid) as (sets & _ & -> & _).
    rewrite map_tag_restored_sets, redact_elements.
    apply map_tag_apply_step, redact_step_tag. }
  split; [exact Htags|]. split; [|split].
  - rewrite Htags. intros t Ht. apply in_map_iff in Ht as (e & <- & He).
    apply filter_In in He as [He _]. now apply in_map.
  - rewrite <- (length_map tag (elements (outcome_record _))), Htags, length_map.
    apply filter_length_le.
  - intros Hnd. rewrite Htags. now apply NoDup_map_filter.
Qed.

Lemma anonymise_adds_no_element_sample :
  NoDup (map tag (elements (outcome_record
                              (anonymise_body sample_record "F" "34"
                                 "25041909433812M")))).
Proof.
  apply (proj2 (proj2 (proj2 (anonymise_adds_no_element sample_record "F" "34"
                                "25041909433812M")))).
  repeat (apply NoDup_cons; [cbn; intuition discriminate|]). apply NoDup_nil.
Defined.

(** ** The identity extractor: failure, shape and the files of a session *)

Lemma search_none_iff (p : string) :
  search_id_sex_age p = None <-> no_match_before (S (length p)) p = true.
Proof.
  induction p as [|c p IH]; cbn [search_id_sex_age no_match_before length].
  - destruct (match_here ""); split; intro; try discriminate; reflexivity.
  - destruct (match_here (String c p)); [split; intro; discriminate | exact IH].
Qed.

Lemma extract_shape (p raw sex age : string) :
  extract_id_sex_age p = inr (raw, sex, age) ->
  is_number raw = true /\ (sex = "F" \/ sex = "M") /\ is_number age = true
  /\ contains (matched_text raw sex age) p = true.
Proof.
  unfold extract_id_sex_age.
  destruct (search_id_sex_age p) as [m|] eqn:Hs; [|discriminate].
  apply search_shape in Hs as (a & x & b & -> & Ha & Hx & Hb & Hc).
  rewrite (split_matched_text a x b Ha Hx Hb).
  rewrite (strip_nonspace a), (strip_nonspace b) by now apply number_nonspace.
  replace (strip x) with x by (destruct Hx as [-> | ->]; reflexivity).
  intros [= <- <- <-]. auto.
Qed.

Lemma match_here_no_digit (s : string) :
  starts_with_digit s = false -> match_here s = None.
Proof.
  intros H. unfold match_here, match_alt.
  destruct s as [|c s]; [reflexivity|].
  cbn [starts_with_digit] in H. cbn [span_digits]. now rewrite H.
Qed.

Lemma no_match_without_digit (n : nat) :
  forall s, all_chars (fun c => negb (is_digit c)) s = true ->
            no_match_before n s = true.
Proof.
  induction n as [|n IH]; intros s Hs; cbn [no_match_before]; [reflexivity|].
  destruct s as [|c s]; [reflexivity|].
  cbn [all_chars] in Hs. apply andb_true_iff in Hs as [Hc Hs].
  apply negb_true_iff in Hc.
  rewrite match_here_no_digit by exact Hc. now apply IH.
Qed.

(** X7.  [extract_id_sex_age] raises exactly when no position of the path
    starts a match of the pattern, and then it is the [AttributeError] of
    [None.group]: the three indexings never fail.  A path without a digit is
    such a path.  When it returns, the first and the third token are
    non-empty runs of digits, the second is [F] or [M], and the three, with a
    space between them, occur in the path. *)
Theorem extract_id_sex_age_raises_iff (p : string) :
  (forall e, extract_id_sex_age p = inl e ->
             e = AttributeError "group"
             /\ no_match_before (S (length p)) p = true)
  /\ (no_match_before (S (length p)) p = true ->
      extract_id_sex_age p = inl (AttributeError "group"))
  /\ (all_chars (fun c => negb (is_digit c)) p = true ->
      extract_id_sex_age p = inl (AttributeError "group"))
  /\ (forall raw sex age,
        extract_id_sex_age p = inr (raw, sex, age) ->
        is_number raw = true /\ (sex = "F" \/ sex = "M")
        /\ is_number age = true
        /\ contains (matched_text raw sex age) p = true).
Proof.
  assert (Hnone : no_match_before (S (length p)) p = true ->
                  extract_id_sex_age p = inl (AttributeError "group")).
  { intros H. apply search_none_iff in H. unfold extract_id_sex_age.
    now rewrite H. }
  split; [|split; [exact Hnone | split]].
  - intros e. unfold extract_id_sex_age.
    destruct (search_id_sex_age p) as [m|] eqn:Hs.
    + apply search_shape in Hs as (a & x & b & -> & Ha & Hx & Hb & _).
      rewrite (split_matched_text a x b Ha Hx Hb). discriminate.
    + intros [= <-]. split; [reflexivity | now apply search_none_iff].
  - intros H. apply Hnone. now apply no_match_without_digit.
  - intros raw sex age. apply extract_shape.
Qed.

Lemma extract_id_sex_age_raises_sample :
  extract_id_sex_age "/data/0001/T2_AX_1/DICOM/EXP00000/a.dcm"
  = inl (AttributeError "group").
Proof.
  apply (proj1 (proj2 (extract_id_sex_age_raises_iff
                         "/data/0001/T2_AX_1/DICOM/EXP00000/a.dcm"))).
  vm_compute. reflexivity.
Defined.

Lemma span_digits_append_stop (s : string) (c : ascii) (t : string) :
  is_digit c = false ->
  span_digits (s ++ String c t)
  = (fst (span_digits s), snd (span_digits s) ++ String c t).
Proof.
  intros Hc. induction s as [|x s IH]; cbn [append span_digits].
  - now rewrite Hc.
  - destruct (is_digit x); [|reflexivity].
    rewrite IH. now destruct (span_digits s).
Qed.

Lemma match_alt_append_slash (x : ascii) (s f : string) :
  Ascii.eqb "/" x = false ->
  match_alt x (s ++ String "/" f) = match_alt x s.
Proof.
  intros Hx. unfold match_alt.
  rewrite span_digits_append_stop by reflexivity.
  destruct (span_digits s) as [a r]. cbn [fst snd].
  destruct (is_empty a); [reflexivity|].
  destruct r as [|sp1 [|y [|sp2 r']]]; cbn [append].
  - destruct f as [|y [|sp2 f']]; reflexivity.
  - destruct f as [|sp2 f']; [reflexivity|].
    rewrite Hx, andb_false_r. reflexivity.
  - change (Ascii.eqb "/" " ") with false. now rewrite andb_false_r.
  - destruct (Ascii.eqb sp1 " " && Ascii.eqb y x && Ascii.eqb sp2 " ");
      [|reflexivity].
    rewrite span_digits_append_stop by reflexivity.
    now destruct (span_digits r').
Qed.

Lemma match_here_append_slash (s f : string) :
  match_here (s ++ String "/" f) = match_here s.
Proof.
  unfold match_here. now rewrite !match_alt_append_slash by reflexivity.
Qed.

Lemma search_append_slash (s f : string) :
  search_id_sex_age (s ++ String "/" f)
  = match search_id_sex_age s with
    | Some m => Some m
    | None => search_id_sex_age (String "/" f)
    end.
Proof.
  induction s as [|c s IH].
  - reflexivity.
  - change (String c s ++ String "/" f) with (String c (s ++ String "/" f)).
    cbn [search_id_sex_age].
    change (String c (s ++ String "/" f)) with (String c s ++ String "/" f).
    rewrite match_here_append_slash.
    destruct (match_here (String c s)); [reflexivity | exact IH].
Qed.

Lemma search_path_join (root f m : string) :
  search_id_sex_age root = Some m -> prefix "/" f = false ->
  search_id_sex_age (path_join root f) = Some m.
Proof.
  intros Hs Hf. unfold path_join. rewrite Hf.
  destruct (is_empty root) eqn:Er.
  - apply is_empty_true in Er. subst root. discriminate Hs.
  - cbn [orb]. destruct (ends_with_slash root) eqn:Es.
    + destruct (ends_with_slash_split root Es) as [r0 ->].
      rewrite append_assoc. cbn [append].
      rewrite search_append_slash in Hs |- *.
      destruct (search_id_sex_age r0); [exact Hs | discriminate Hs].
    + cbn [append]. rewrite search_append_slash. now rewrite Hs.
Qed.

Lemma extract_path_join (root f raw sex age : string) :
  extract_id_sex_age root = inr (raw, sex, age) ->
  prefix "/" f = false ->
  extract_id_sex_age (path_join root f) = inr (raw, sex, age).
Proof.
  unfold extract_id_sex_age.
  destruct (search_id_sex_age root) as [m|] eqn:Hs; [|discriminate].
  intros H Hf. now rewrite (search_path_join root f m Hs Hf).
Qed.

(** X8.  When the session directory itself carries the identity pattern,
    every file of the session whose name does not start with a slash gets the
    identity of the directory: the file name after the directory cannot
    change what is extracted. *)
Theorem extract_id_sex_age_of_session (root f raw sex age : string) :
  extract_id_sex_age root = inr (raw, sex, age) ->
  prefix "/" f = false ->
  extract_id_sex_age (path_join root f) = inr (raw, sex, age).
Proof. apply extract_path_join. Qed.

Lemma extract_id_sex_age_of_session_sample :
  extract_id_sex_age (path_join sample_root "77 M 001.dcm")
  = inr ("12", "F", "034").
Proof.
  apply extract_id_sex_age_of_session; reflexivity.
Defined.

(** ** The identifier, the sex and the age of the written records *)

Lemma digit_parses (c : ascii) (d : Decimal.uint) :
  is_digit c = true -> exists d', uint_of_char c (Some d) = Some d'.
Proof.
  destruct c as [[] [] [] [] [] [] [] []]; cbn; intros H;
    try discriminate H; eauto.
Qed.

Lemma number_parses (s : string) :
  all_chars is_digit s = true -> exists n, nat_of_str s = Some n.
Proof.
  unfold nat_of_str.
  assert (H : all_chars is_digit s = true ->
              exists d, NilEmpty.uint_of_string s = Some d).
  { induction s as [|c s IH]; cbn [all_chars NilEmpty.uint_of_string];
      [eauto|].
    intros H. apply andb_true_iff in H as [Hc Hs].
    destruct (IH Hs) as [d ->]. now apply digit_parses. }
  intros Hs. destruct (H Hs) as [d ->]. cbn. eauto.
Qed.

(** X9.  For a file processed without exception, the sex field of the
    written record is [F] or [M] followed by a space, and its age field is the
    age of the path filled with zeros on the left to three digits and followed
    by [Y]: the number is the same, and an age of more than three digits is
    not cut. *)
Theorem written_record_sex_and_age (env : Env) (root path t : string)
    (names : list string) (idx : nat) (filename : string) (w w' : World)
    (u : unit) :
  process_file env root path (Some t) names idx filename w = (inr u, w') ->
  exists raw sex age out d' n,
    extract_id_sex_age (path_join root filename) = inr (raw, sex, age)
    /\ written w' = (written w ++ [(out, d')])%list
    /\ (sex = "F" \/ sex = "M")
    /\ value_of "PatientSex" d' = Some (VStr (sex ++ " "))
    /\ value_of "PatientAge" d'
       = Some (VStr (repeat_char "0" (3 - length age) ++ age ++ "Y"))
    /\ nat_of_str age = Some n
    /\ nat_of_str (repeat_char "0" (3 - length age) ++ age) = Some n.
Proof.
  intros H.
  apply process_file_returns in H
    as (t' & x & raw & sex & age & d' & st & name & _ & _ & Hex & Han
        & _ & _ & Hw & _).
  destruct (extract_shape _ _ _ _ Hex) as (_ & Hsex & Hage & _).
  apply andb_true_iff in Hage as [_ Hdigits].
  destruct (number_parses age Hdigits) as [n Hn].
  exists raw, sex, age, (path_join st ("EXP" ++ name ++ ".dcm")), d', n.
  apply anonymise_body_values in Han as (Hs & Ha & _).
  rewrite (zfill_digits 3 age Hdigits), append_assoc in Ha.
  rewrite nat_of_str_zeros. auto 10.
Qed.

Lemma written_record_sex_and_age_sample :
  exists out d',
    written (snd (process_file sample_env
                    "/data/0001/12 M 7/T2_AX_1/DICOM/EXP00000" "/data"
                    (Some "250419094338") (names_of 1) 0 "a.dcm" initial_world))
    = [(out, d')]
    /\ value_of "PatientSex" d' = Some (VStr "M ")
    /\ value_of "PatientAge" d' = Some (VStr "007Y").
Proof.
  destruct (written_record_sex_and_age sample_env
              "/data/0001/12 M 7/T2_AX_1/DICOM/EXP00000" "/data"
              "250419094338" (names_of 1) 0 "a.dcm" initial_world
              (snd (process_file sample_env
                      "/data/0001/12 M 7/T2_AX_1/DICOM/EXP00000" "/data"
                      (Some "250419094338") (names_of 1) 0 "a.dcm"
                      initial_world))
              tt)
    as (raw & sex & age & out & d' & n & Hex & Hw & _ & Hsex & Hage & _).
  - vm_compute. reflexivity.
  - vm_compute in Hex. injection Hex as <- <- <-.
    exists out, d'. split; [exact Hw|]. split; [exact Hsex | exact Hage].
Defined.

(** The records a loop writes carry identifiers built from the token. *)
Lemma for_each_file_written_ids (env : Env) (root path : string)
    (date_time : option string) (names : list string) (files : list string) :
  forall (idx : nat) (problematic : list string) (w : World)
         (problematic' : list string) (w' : World),
    for_each_file env root path date_time names idx files problematic w
    = (problematic', w') ->
    exists recs,
      written w' = (written w ++ recs)%list
      /\ Forall (fun rec =>
                   exists t f raw sex age,
                     date_time = Some t /\ In f files
                     /\ extract_id_sex_age (path_join root f)
                        = inr (raw, sex, age)
                     /\ value_of "PatientID" (snd rec)
                        = Some (VStr (pad_even (t ++ raw ++ "M"))))
                recs.
Proof.
  induction files as [|f files IH]; intros idx problematic w problematic' w' H.
  - injection H as _ <-. exists []. now rewrite app_nil_r.
  - cbn [for_each_file] in H.
    destruct (process_file env root path date_time names idx f w)
      as [[e|u] w1] eqn:Hf.
    + apply process_file_raises in Hf as [Hw _].
      apply IH in H as (recs & Hrecs & Hall).
      exists recs. cbn [written logging] in Hrecs.
      split; [congruence|].
      revert Hall. apply Forall_impl.
      intros rec (t & f' & raw & sex & age & ? & ? & ? & ?).
      exists t, f', raw, sex, age. repeat split; auto. now right.
    + apply process_file_returns in Hf
        as (t & x & raw & sex & age & d' & st & name & Hdt & _ & Hex & Han
            & _ & _ & Hw & _).
      apply IH in H as (recs & Hrecs & Hall).
      exists ((path_join st ("EXP" ++ name ++ ".dcm"), d') :: recs).
      rewrite Hrecs, Hw, <- app_assoc. split; [reflexivity|].
      constructor.
      * exists t, f, raw, sex, age. cbn [snd].
        apply anonymise_body_values in Han as (_ & _ & Han).
        repeat split; auto. now left.
      * revert Hall. apply Forall_impl.
        intros rec (t' & f' & raw' & sex' & age' & ? & ? & ? & ?).
        exists t', f', raw', sex', age'. repeat split; auto. now right.
Qed.

(** X10.  When the session directory carries the identity pattern and no
    file name starts with a slash, all the records a call writes hold one and
    the same patient identifier, of even length: the token of the session,
    the raw session token of the directory and [M], padded. *)
Theorem session_shares_identifier (fuel : nat) (env : Env) (args : Args)
    (w : World) (res : list string * list string) (w' : World)
    (raw sex age : string) :
  process_folder fuel env args w = Some (inr res, w') ->
  extract_id_sex_age (root args) = inr (raw, sex, age) ->
  Forall (fun f => prefix "/" f = false) (files args) ->
  exists recs pid,
    written w' = (written w ++ recs)%list
    /\ Nat.even (length pid) = true
    /\ Forall (fun rec => value_of "PatientID" (snd rec) = Some (VStr pid)) recs
    /\ (recs <> [] -> exists t, pid = pad_even (t ++ raw ++ "M")).
Proof.
  intros H Hroot Hfiles.
  destruct (files args) as [|f0 fs] eqn:Hf.
  - unfold process_folder in H. rewrite Hf in H. injection H as _ <-.
    exists [], "". rewrite app_nil_r. repeat split; auto. congruence.
  - rewrite <- Hf in *.
    apply process_folder_run in H
      as (same & dt & w1 & prob & w2 & _ & Htrue & Hfalse & Hloop & _ & ->);
      [|congruence].
    pose proof (process_folder_written fuel env args w w1 same dt Htrue Hfalse)
      as Hw1.
    apply for_each_file_written_ids in Hloop as (recs & Hrecs & Hall).
    exists recs,
      (match dt with Some t => pad_even (t ++ raw ++ "M") | None => "" end).
    cbn [written logging]. rewrite Hrecs, Hw1.
    split; [reflexivity|]. split; [destruct dt; [apply pad_even_length | reflexivity]|].
    split.
    + revert Hall. apply Forall_impl.
      intros rec (t & f & raw' & sex' & age' & -> & Hin & Hex & Hid).
      apply (proj1 (sort_In _ _)) in Hin. rewrite Forall_forall in Hfiles.
      rewrite (extract_path_join _ f _ _ _ Hroot (Hfiles f Hin))
        in Hex.
      injection Hex as <- _ _. exact Hid.
    + intros Hne. destruct recs as [|rec recs]; [congruence|].
      apply Forall_inv in Hall as (t & _ & _ & _ & _ & -> & _). eauto.
Qed.

Lemma session_shares_identifier_sample :
  exists res w' recs pid,
    process_folder 0 sample_env (sample_args ["b.dcm"; "a.dcm"]) initial_world
    = Some (inr res, w')
    /\ written w' = recs
    /\ Nat.even (length pid) = true
    /\ Forall (fun rec => value_of "PatientID" (snd rec) = Some (VStr pid)) recs.
Proof.
  assert (Hrun : exists res w',
             process_folder 0 sample_env (sample_args ["b.dcm"; "a.dcm"])
               initial_world = Some (inr res, w'))
    by (eexists; eexists; vm_compute; reflexivity).
  destruct Hrun as (res & w' & Hrun).
  destruct (session_shares_identifier 0 sample_env
              (sample_args ["b.dcm"; "a.dcm"]) initial_world res w'
              "12" "F" "034" Hrun)
    as (recs & pid & Hw & Heven & Hall & _).
  - reflexivity.
  - repeat constructor.
  - exists res, w', recs, pid. auto.
Defined.

(** ** The token and the names, in full *)

Lemma retry_clock_first (env : Env) (last : string) (fuel : nat) :
  forall (date_time : string) (w : World) (t : string) (w' : World),
    retry_clock fuel env last date_time w = Some (t, w') ->
    (date_time <> last /\ t = date_time /\ w' = w)
    \/ (date_time = last
        /\ exists k, k < fuel
                     /\ t = token_at env (ticks w + k) /\ t <> last
                     /\ (forall j, j < k -> token_at env (ticks w + j) = last)
                     /\ ticks w' = ticks w + k + 1
                     /\ dirs w' = dirs w /\ written w' = written w
                     /\ log w' = log w).
Proof.
  induction fuel as [|fuel IH]; intros date_time w t w'; cbn [retry_clock];
    destruct (String.eqb last date_time) eqn:E; try discriminate.
  - intros [= <- <-]. apply String.eqb_neq in E. left. auto.
  - apply String.eqb_eq in E. subst date_time.
    rewrite read_clock_token. intros H. right. split; [reflexivity|].
    apply IH in H as [(Hne & -> & ->) | (Heq & k & Hk & -> & Hne & Hbefore
                                         & Ht & Hd & Hw & Hl)].
    + exists 0. rewrite Nat.add_0_r. cbn [tick ticks dirs written log].
      repeat split; auto; try lia; try (intros j Hj; lia).
    + exists (S k). cbn [tick ticks dirs written log] in *.
      replace (ticks w + S k) with (S (ticks w) + k) by lia.
      repeat split; auto; try lia.
      all: intros [|j] Hj; [now rewrite Nat.add_0_r|].
      all: replace (ticks w + S j) with (S (ticks w) + j) by lia.
      all: apply Hbefore; lia.
  - intros [= <- <-]. apply String.eqb_neq in E. left. auto.
Qed.

(** X11.  In a new session the token is the first reading of the clock,
    counted from the call, that differs from the previous token: every reading
    before it equalled the previous token, the clock was read once more than
    that, and nothing else was touched.  The wait ends as soon as the clock
    shows another second within the bound. *)
Theorem fresh_token_is_first_new_reading (fuel : nat) (env : Env)
    (last : string) (w : World) :
  (forall t w',
      fresh_token fuel env last w = Some (t, w') ->
      exists k, k <= fuel
                /\ t = token_at env (ticks w + k) /\ t <> last
                /\ (forall j, j < k -> token_at env (ticks w + j) = last)
                /\ ticks w' = ticks w + k + 1
                /\ dirs w' = dirs w /\ written w' = written w
                /\ log w' = log w)
  /\ (token_at env (ticks w + fuel) <> last ->
      exists t w', fresh_token fuel env last w = Some (t, w')).
Proof.
  split; [|apply fresh_token_terminates].
  intros t w'. unfold fresh_token. rewrite read_clock_token. intros H.
  apply retry_clock_first in H
    as [(Hne & -> & ->) | (Heq & k & Hk & -> & Hne & Hbefore & Ht & Hd & Hw & Hl)].
  - exists 0. rewrite Nat.add_0_r. cbn [tick ticks dirs written log].
    repeat split; auto; try lia; try (intros j Hj; lia).
  - exists (S k). cbn [tick ticks dirs written log] in *.
    replace (ticks w + S k) with (S (ticks w) + k) by lia.
    repeat split; auto; try lia.
    all: intros [|j] Hj; [now rewrite Nat.add_0_r|].
    all: replace (ticks w + S j) with (S (ticks w) + j) by lia.
    all: apply Hbefore; lia.
Qed.

Lemma fresh_token_waits_sample :
  exists w',
    fresh_token 1 sample_env "250419094338" initial_world
    = Some ("250419094339", w')
    /\ ticks w' = 2.
Proof.
  destruct (proj2 (fresh_token_is_first_new_reading 1 sample_env "250419094338"
                     initial_world))
    as (t & w' & Hrun); [vm_compute; discriminate|].
  destruct (proj1 (fresh_token_is_first_new_reading 1 sample_env "250419094338"
                     initial_world) t w' Hrun)
    as (k & Hk & Ht & Hne & Hbefore & Hticks & _).
  assert (k = 1).
  { destruct k as [|[|k]]; [|reflexivity|lia].
    exfalso. apply Hne. rewrite Ht. vm_compute. reflexivity. }
  subst k. exists w'. split; [|exact Hticks].
  rewrite Hrun, Ht. reflexivity.
Defined.




Lemma length_zfill_number (width n : nat) :
  length (zfill width (str_of_nat n)) = Nat.max width (length (str_of_nat n)).
Proof.
  unfold str_of_nat. rewrite zfill_digits by apply digits_of_uint.
  rewrite length_append, length_repeat_char. lia.
Qed.



Lemma names_of_NoDup (n : nat) : NoDup (names_of n).
Proof.
  unfold names_of. apply NoDup_map_NoDup_ForallPairs; [|apply seq_NoDup].
  intros i j _ _. apply fmt_04d_injective.
Qed.

(** X13.  The name of index [n] reads back as [n], so the names of a
    session are different from one another, and the name at position [i] of
    the list of names is that of [i].  A name is the decimal writing of its
    index filled with zeros to four digits and never cut: it has five digits
    at index 10000. *)
Theorem output_names_decode :
  (forall n, nat_of_str (fmt_04d n) = Some n
             /\ all_chars is_digit (fmt_04d n) = true
             /\ length (fmt_04d n) = Nat.max 4 (length (str_of_nat n)))
  /\ (forall n, NoDup (names_of n) /\ List.length (names_of n) = n)
  /\ (forall n i, nth_error (names_of n) i
                  = if Nat.ltb i n then Some (fmt_04d i) else None)
  /\ fmt_04d (100 * 100) = "10000".
Proof.
  split; [|split; [|split]].
  - intros n. split; [apply nat_of_str_fmt_04d|].
    split; [apply fmt_04d_digits | apply length_zfill_number].
  - intros n. split; [apply names_of_NoDup | apply names_of_length].
  - intros n i. unfold names_of. rewrite nth_error_map, nth_error_seq.
    now destruct (Nat.ltb i n).
  - vm_compute. reflexivity.
Qed.

(** ** The substitutions on the path *)

Lemma prefix_append_long (m a x : string) :
  length m <= length a -> prefix m (a ++ x) = prefix m a.
Proof.
  revert a. induction m as [|c m IH]; intros a H.
  - destruct a; destruct x; reflexivity.
  - destruct a as [|c' a]; cbn [length] in H; [lia|].
    cbn [append prefix]. destruct (ascii_dec c c'); [|reflexivity].
    apply IH. lia.
Qed.

Lemma contains_cons_false (m : string) (c : ascii) (s : string) :
  contains m (String c s) = false ->
  prefix m (String c s) = false /\ contains m s = false.
Proof. cbn [contains]. intros H. now apply orb_false_iff in H. Qed.

Lemma sub_DICOM_tail_line (s : string) :
  all_chars (fun c => negb (is_newline c)) s = true ->
  sub_DICOM_tail true s = "".
Proof.
  induction s as [|c s IH]; cbn [all_chars sub_DICOM_tail]; [reflexivity|].
  intros H. apply andb_true_iff in H as [Hc Hs].
  apply negb_true_iff in Hc. now rewrite Hc, IH.
Qed.

Lemma sub_DICOM_tail_absent (s : string) :
  contains "DICOM" s = false -> sub_DICOM_tail false s = s.
Proof.
  induction s as [|c s IH]; [reflexivity|].
  intros H. apply contains_cons_false in H as [Hp Hs].
  cbn [sub_DICOM_tail]. now rewrite Hp, IH.
Qed.

Lemma length_but_last (s : string) : length (but_last s) = length s - 1.
Proof.
  induction s as [|c s IH]; [reflexivity|].
  cbn [but_last]. destruct s as [|c' s]; [reflexivity|].
  cbn [length] in *. rewrite IH. lia.
Qed.

Lemma but_last_append (s : string) :
  is_empty s = false -> exists c, s = but_last s ++ String c "".
Proof.
  induction s as [|c s IH]; [discriminate|]. intros _.
  destruct s as [|c' s]; [now exists c|].
  destruct IH as [x Hx]; [reflexivity|]. exists x.
  cbn [but_last append]. cbn [but_last] in Hx. now rewrite <- Hx.
Qed.

(** The first occurrence of a pattern, described by what precedes it. *)
Lemma prefix_before_occurrence (pat pre rest : string) (c : ascii) :
  is_empty pat = false ->
  contains pat (String c pre ++ but_last pat) = false ->
  prefix pat (String c pre ++ pat ++ rest) = false
  /\ contains pat (pre ++ but_last pat) = false.
Proof.
  intros Hne H.
  change (String c pre ++ but_last pat) with (String c (pre ++ but_last pat)) in H.
  apply contains_cons_false in H as [Hp Hs]. split; [|exact Hs].
  destruct (but_last_append pat Hne) as [x Hx].
  assert (E : String c pre ++ pat ++ rest
              = (String c pre ++ but_last pat) ++ String x rest).
  { rewrite append_assoc. f_equal. rewrite Hx at 1.
    now rewrite append_assoc. }
  rewrite E, prefix_append_long; [exact Hp|].
  cbn [append length]. rewrite length_append, length_but_last.
  destruct pat; [discriminate | cbn [length]; lia].
Qed.

(** X14.  The first substitution on the path of a file removes the marker
    [DICOM] and all that follows it on the line: a path on one line is cut
    to what precedes the first [DICOM], and a path without [DICOM] is left as
    it is, so that the output directory is then named like the file. *)
Theorem save_to_cuts_at_DICOM (env : Env) :
  (forall s, contains "DICOM" s = false ->
             re_sub env "DICOM(.*)" "" s = inr s)
  /\ (forall pre rest,
        contains "DICOM" (pre ++ "DICO") = false ->
        all_chars (fun c => negb (is_newline c)) rest = true ->
        re_sub env "DICOM(.*)" "" (pre ++ "DICOM" ++ rest) = inr pre).
Proof.
  split.
  - intros s H. change (re_sub env "DICOM(.*)" "" s)
      with (@inr Exc string (sub_DICOM_tail false s)).
    now rewrite sub_DICOM_tail_absent.
  - intros pre rest Hpre Hrest.
    change (re_sub env "DICOM(.*)" "" (pre ++ "DICOM" ++ rest))
      with (@inr Exc string (sub_DICOM_tail false (pre ++ "DICOM" ++ rest))).
    f_equal. induction pre as [|c pre IH].
    + pose proof (prefix_refl_append "DICOM" rest) as Hp.
      cbn [append] in Hp |- *. cbn [sub_DICOM_tail]. rewrite Hp.
      apply sub_DICOM_tail_line. cbn [all_chars]. now rewrite Hrest.
    + destruct (prefix_before_occurrence "DICOM" pre rest c eq_refl Hpre)
        as [Hp Hs].
      change (String c pre ++ "DICOM" ++ rest)
        with (String c (pre ++ "DICOM" ++ rest)) in Hp |- *.
      cbn [sub_DICOM_tail]. rewrite Hp. f_equal. now apply IH.
Qed.

Lemma save_to_cuts_at_DICOM_sample :
  re_sub sample_env "DICOM(.*)" ""
    "/data/0001/12 F 034/T2_AX_1/DICOM/EXP00000/a.dcm"
  = inr "/data/0001/12 F 034/T2_AX_1/".
Proof.
  apply (proj2 (save_to_cuts_at_DICOM sample_env)
           "/data/0001/12 F 034/T2_AX_1/" "/EXP00000/a.dcm");
    reflexivity.
Defined.

(** ** The novelty test *)

Lemma sub_scan_skip (pat repl a s : string) :
  sub_scan pat repl (length a) (a ++ s) = sub_scan pat repl 0 s.
Proof.
  induction a as [|c a IH]; [reflexivity|].
  cbn [length append sub_scan]. exact IH.
Qed.

Lemma sub_scan_absent (pat repl s : string) :
  contains pat s = false -> sub_scan pat repl 0 s = s.
Proof.
  induction s as [|c s IH]; [reflexivity|].
  intros H. apply contains_cons_false in H as [Hp Hs].
  cbn [sub_scan]. now rewrite Hp, IH.
Qed.

Lemma sub_scan_once (pat repl pre post : string) :
  is_empty pat = false ->
  contains pat (pre ++ but_last pat) = false ->
  sub_scan pat repl 0 (pre ++ pat ++ post)
  = pre ++ repl ++ sub_scan pat repl 0 post.
Proof.
  intros Hne. induction pre as [|c pre IH]; intros Hpre.
  - destruct pat as [|x pat]; [discriminate|].
    pose proof (prefix_refl_append (String x pat) post) as Hp.
    cbn [append] in Hp |- *. cbn [sub_scan]. rewrite Hp. f_equal.
    replace (length (String x pat) - 1) with (length pat) by (cbn [length]; lia).
    apply sub_scan_skip.
  - destruct (prefix_before_occurrence pat pre post c Hne Hpre) as [Hp Hs].
    change (String c pre ++ pat ++ post)
      with (String c (pre ++ pat ++ post)) in Hp |- *.
    cbn [sub_scan]. rewrite Hp. cbn [append]. f_equal. now apply IH.
Qed.

Lemma literal_cat_spec (cat : string * string) :
  literal_cat cat = true ->
  is_empty (fst cat) = false /\ is_empty (snd cat) = false
  /\ is_literal (fst cat) = true /\ is_plain_repl (fst cat) = true
  /\ is_literal (snd cat) = true /\ is_plain_repl (snd cat) = true.
Proof.
  unfold literal_cat. rewrite !andb_true_iff, !negb_true_iff. tauto.
Qed.

Lemma re_sub_literal (env : Env) (pat repl s : string) :
  is_empty pat = false -> is_empty repl = false ->
  is_literal pat = true -> is_plain_repl repl = true ->
  re_sub env pat repl s = inr (sub_scan pat repl 0 s).
Proof.
  intros Hp Hr Hl Hpl. unfold re_sub, sub_literal.
  now rewrite Hr, andb_false_r, Hl, Hpl, Hp.
Qed.

(** X15.  Two directories that differ only in that one names the first
    category where the other names the second, the category occurring once,
    are the same visit, whichever of the two is the previous one: the session
    is classified as not new. *)
Theorem same_visit_of_sibling (env : Env) (cat : string * string)
    (pre post : string) :
  literal_cat cat = true ->
  (contains (fst cat) (pre ++ but_last (fst cat)) = false ->
   contains (fst cat) post = false ->
   same_visit env cat (pre ++ fst cat ++ post) (pre ++ snd cat ++ post)
   = inr true)
  /\ (contains (snd cat) (pre ++ but_last (snd cat)) = false ->
      contains (snd cat) post = false ->
      same_visit env cat (pre ++ snd cat ++ post) (pre ++ fst cat ++ post)
      = inr true).
Proof.
  intros Hcat.
  destruct (literal_cat_spec cat Hcat) as (E0 & E1 & L0 & P0 & L1 & P1).
  unfold same_visit. split; intros Hpre Hpost.
  - rewrite (re_sub_literal env (fst cat) (snd cat) _ E0 E1 L0 P1).
    rewrite (sub_scan_once _ _ _ _ E0 Hpre), (sub_scan_absent _ _ _ Hpost).
    now rewrite String.eqb_refl.
  - rewrite (re_sub_literal env (fst cat) (snd cat) _ E0 E1 L0 P1).
    destruct (String.eqb _ (pre ++ fst cat ++ post)); [reflexivity|].
    rewrite (re_sub_literal env (snd cat) (fst cat) _ E1 E0 L1 P0).
    rewrite (sub_scan_once _ _ _ _ E1 Hpre), (sub_scan_absent _ _ _ Hpost).
    now rewrite String.eqb_refl.
Qed.

Lemma same_visit_of_sibling_sample :
  same_visit sample_env main_cat
    "/data/0001/12 F 034/T2_SAG_1/DICOM/EXP00000"
    "/data/0001/12 F 034/T2_AX_1/DICOM/EXP00000"
  = inr true.
Proof.
  apply (proj2 (same_visit_of_sibling sample_env main_cat
                  "/data/0001/12 F 034/" "_1/DICOM/EXP00000" eq_refl));
    reflexivity.
Defined.

(** X16.  A directory that names neither category is the same visit as the
    previous directory exactly when it is that very directory. *)
Theorem same_visit_without_category (env : Env) (cat : string * string)
    (root last_directory : string) :
  literal_cat cat = true ->
  contains (fst cat) root = false -> contains (snd cat) root = false ->
  same_visit env cat root last_directory
  = inr (String.eqb root last_directory).
Proof.
  intros Hcat H0 H1.
  destruct (literal_cat_spec cat Hcat) as (E0 & E1 & L0 & P0 & L1 & P1).
  unfold same_visit.
  rewrite (re_sub_literal env (fst cat) (snd cat) _ E0 E1 L0 P1).
  rewrite (re_sub_literal env (snd cat) (fst cat) _ E1 E0 L1 P0).
  rewrite (sub_scan_absent _ _ _ H0), (sub_scan_absent _ _ _ H1).
  now destruct (String.eqb root last_directory).
Qed.

Lemma same_visit_without_category_sample :
  same_visit sample_env main_cat "/data/0001/12 F 034/T1_COR_1/DICOM/EXP00000"
    "/data/0001/12 F 034/T1_COR_1/DICOM/EXP00000"
  = inr true.
Proof.
  apply (same_visit_without_category sample_env main_cat
           "/data/0001/12 F 034/T1_COR_1/DICOM/EXP00000"
           "/data/0001/12 F 034/T1_COR_1/DICOM/EXP00000");
    reflexivity.
Defined.

(** ** What leaves [process_folder] *)

Lemma same_visit_literal (env : Env) (cat : string * string)
    (root last_directory : string) :
  literal_cat cat = true ->
  exists same, same_visit env cat root last_directory = inr same.
Proof.
  intros Hcat.
  destruct (literal_cat_spec cat Hcat) as (E0 & E1 & L0 & P0 & L1 & P1).
  unfold same_visit.
  rewrite (re_sub_literal env (fst cat) (snd cat) _ E0 E1 L0 P1).
  rewrite (re_sub_literal env (snd cat) (fst cat) _ E1 E0 L1 P0).
  destruct (String.eqb _ last_directory); eauto.
Qed.

(** X17.  No exception of a file leaves [process_folder]: an exception
    leaves it only from the novelty test, when a category is not a pattern
    [re.sub] accepts, and then before anything is read, written or logged.
    With two categories taken literally the call never raises. *)
Theorem process_folder_raises_only_in_test (fuel : nat) (env : Env)
    (args : Args) (w : World) :
  (forall e w',
      process_folder fuel env args w = Some (inl e, w') ->
      w' = w /\ files args <> []
      /\ same_visit env (cat args) (root args) (last_directory args) = inl e)
  /\ (forall e,
        files args <> [] ->
        same_visit env (cat args) (root args) (last_directory args) = inl e ->
        process_folder fuel env args w = Some (inl e, w))
  /\ (literal_cat (cat args) = true ->
      forall r w', process_folder fuel env args w = Some (r, w') ->
                   exists res, r = inr res).
Proof.
  assert (Hinv : forall e w',
             process_folder fuel env args w = Some (inl e, w') ->
             w' = w /\ files args <> []
             /\ same_visit env (cat args) (root args) (last_directory args)
                = inl e).
  { intros e w'. unfold process_folder.
    destruct (files args) as [|f0 fs]; [discriminate|].
    destruct (same_visit env (cat args) (root args) (last_directory args))
      as [e0|same].
    - intros [= <- <-]. repeat split; auto. discriminate.
    - destruct (negb same).
      + destruct (fresh_token fuel env (last_date_time args) w) as [[t w1]|];
          [|discriminate].
        destruct (for_each_file _ _ _ _ _ _ _ _ _); discriminate.
      + destruct (for_each_file _ _ _ _ _ _ _ _ _); discriminate. }
  split; [exact Hinv | split].
  - intros e Hne Hsame. unfold process_folder.
    destruct (files args) as [|f0 fs]; [congruence|]. now rewrite Hsame.
  - intros Hcat [e|res] w' H; [|eauto].
    apply Hinv in H as (_ & _ & H).
    destruct (same_visit_literal env (cat args) (root args)
                (last_directory args) Hcat) as [same Hs].
    congruence.
Qed.

Lemma process_folder_raises_only_in_test_sample :
  process_folder 0 sample_env_strict sample_args_bad_cat initial_world
  = Some (inl (LibraryError "nothing to repeat at position 0"), initial_world)
  /\ exists res w',
       process_folder 0 sample_env (sample_args ["a.dcm"]) initial_world
       = Some (inr res, w').
Proof.
  split.
  - apply (proj1 (proj2 (process_folder_raises_only_in_test 0 sample_env_strict
                           sample_args_bad_cat initial_world)));
      [discriminate | reflexivity].
  - destruct (process_folder 0 sample_env (sample_args ["a.dcm"]) initial_world)
      as [[r w']|] eqn:Hrun; [|vm_compute in Hrun; discriminate Hrun].
    destruct (proj2 (proj2 (process_folder_raises_only_in_test 0 sample_env
                              (sample_args ["a.dcm"]) initial_world))
                eq_refl r w' Hrun) as [res ->].
    now exists res, w'.
Defined.

Lemma for_each_file_unbound_world (env : Env) (root path : string)
    (names : list string) (files : list string) :
  forall (idx : nat) (problematic : list string) (w : World),
    exists fails w',
      for_each_file env root path None names idx files problematic w
      = ((problematic ++ fails)%list, w')
      /\ List.length fails = List.length files
      /\ written w' = written w /\ dirs w' = dirs w /\ ticks w' = ticks w.
Proof.
  induction files as [|f files IH]; intros idx problematic w.
  - exists [], w. now rewrite app_nil_r.
  - cbn [for_each_file].
    destruct (process_file_unbound env root path names idx f w) as [e ->].
    destruct (IH (S idx)
                (problematic ++ [failure_entry env (path_join root f) e])%list
                (logging ERROR ("Error processing file " ++ path_join root f
                                ++ ": " ++ exc_text env e) w))
      as (fails & w' & -> & Hlen & Hw & Hd & Ht).
    exists (failure_entry env (path_join root f) e :: fails), w'.
    rewrite <- app_assoc. cbn in *. auto.
Qed.

(** X18.  A session with files that is classified as not new reads no
    clock, creates no directory and writes no file: every one of its files
    ends in the failure list, and the call still returns and logs its
    completion line. *)
Theorem not_new_session_writes_nothing (fuel : nat) (env : Env) (args : Args)
    (w : World) :
  files args <> [] ->
  same_visit env (cat args) (root args) (last_directory args) = inr true ->
  exists problematic w',
    process_folder fuel env args w = Some (inr (problematic, []), w')
    /\ List.length problematic = List.length (files args)
    /\ written w' = written w /\ dirs w' = dirs w /\ ticks w' = ticks w
    /\ exists lines,
         log w'
         = (log w ++ lines
            ++ [(INFO, ("Anonymized: " ++ root args)%string)])%list.
Proof.
  intros Hne Hsame. unfold process_folder.
  destruct (files args) as [|f0 fs] eqn:Hfiles; [congruence|].
  rewrite Hsame. cbn [negb].
  destruct (for_each_file_unbound_world env (root args) (path args)
              (map fmt_04d (seq 0 (List.length (f0 :: fs))))
              (StringSort.sort (f0 :: fs)) 0 [] w)
    as (fails & w' & Hrun & Hlen & Hw & Hd & Ht).
  rewrite Hrun. cbn [app].
  exists fails, (logging INFO ("Anonymized: " ++ root args) w').
  split; [reflexivity|]. split; [now rewrite Hlen, sort_length|].
  cbn [written dirs ticks log logging]. repeat split; auto.
  clear - Hrun.
  assert (Hlog : forall l idx prob w0 prob' w1,
             for_each_file env (root args) (path args) None
               (map fmt_04d (seq 0 (List.length (f0 :: fs)))) idx l prob w0
             = (prob', w1) ->
             exists lines, log w1 = (log w0 ++ lines)%list).
  { intros l. induction l as [|f l IH]; intros idx prob w0 prob' w1 H.
    - injection H as _ <-. exists []. now rewrite app_nil_r.
    - cbn [for_each_file] in H.
      destruct (process_file_unbound env (root args) (path args)
                  (map fmt_04d (seq 0 (List.length (f0 :: fs)))) idx f w0)
        as [e He].
      rewrite He in H. apply IH in H as [lines Hlines].
      cbn [log logging] in Hlines. rewrite <- app_assoc in Hlines. eauto. }
  destruct (Hlog _ _ _ _ _ _ Hrun) as [lines ->].
  exists lines. now rewrite <- app_assoc.
Qed.

Lemma not_new_session_writes_nothing_sample :
  exists problematic w',
    process_folder 0 sample_env sample_args_same_visit initial_world
    = Some (inr (problematic, []), w')
    /\ List.length problematic = 1 /\ written w' = [] /\ dirs w' = []
    /\ ticks w' = 0.
Proof.
  destruct (not_new_session_writes_nothing 0 sample_env sample_args_same_visit
              initial_world)
    as (problematic & w' & Hrun & Hlen & Hw & Hd & Ht & _);
    [discriminate | reflexivity |].
  exists problematic, w'. auto.
Defined.

(** ** How a file fails, and what the check after writing can do *)

(** X19.  The check after writing cannot fail a file: whatever the reading
    back of the written file answers, the file is processed with the same
    result, the same files are written and the same directories created; only
    the log can differ. *)
Theorem validation_failure_is_not_fatal (env : Env)
    (r : World -> string -> option Exc) (root path : string)
    (date_time : option string) (names : list string) (idx : nat)
    (filename : string) (w : World) :
  let run := process_file env root path date_time names idx filename w in
  let run' := process_file (with_reread env r) root path date_time names idx
                filename w in
  fst run' = fst run
  /\ written (snd run') = written (snd run)
  /\ dirs (snd run') = dirs (snd run)
  /\ ticks (snd run') = ticks (snd run).
Proof.
  cbv zeta.
  unfold process_file, bind, of_result, ret, anonymise_step, makedirs, save_as,
    validate_checksum.
  change (dcmread (with_reread env r)) with (dcmread env).
  change (anonymise (with_reread env r)) with (anonymise env).
  change (save_to_of (with_reread env r)) with (save_to_of env).
  change (makedirs_error (with_reread env r)) with (makedirs_error env).
  change (save_error (with_reread env r)) with (save_error env).
  change (reread_error (with_reread env r)) with r.
  destruct (dcmread env w _) as [e|x]; [auto|].
  destruct (extract_id_sex_age _) as [e|[[mater_id sex] age]]; [auto|].
  destruct date_time as [t|]; [|auto].
  destruct (anonymise env x sex age _ w) as [[d'|e d'] w1]; [|auto].
  destruct (save_to_of env path _ mater_id _) as [e|save_to]; [auto|].
  destruct (makedirs_error env w1 save_to); [auto|].
  destruct (nth_error names idx) as [name|]; [|auto].
  destruct (save_error env _ _ d') as [[e [|]]|]; [auto ..|].
  destruct (r _ _), (reread_error env _ _); cbn; auto.
Qed.

(** X20.  A file whose record lacks one of the three restored fields is
    reported with the [KeyError] of the first of them, in the order sex,
    age, identifier, that the record lacks; the error is logged twice, by
    [anonymise] and by the loop, and neither a directory nor a file is
    created for it. *)
Theorem missing_field_is_logged_twice (env : Env) (root path t : string)
    (names : list string) (idx : nat) (filename : string)
    (problematic : list string) (w : World) (x : FileDataset)
    (raw sex age k : string) :
  dcmread env w (path_join root filename) = inr x ->
  extract_id_sex_age (path_join root filename) = inr (raw, sex, age) ->
  In k restored_fields -> contains_key k (elements x) = false ->
  exists k',
    first_missing x = Some k'
    /\ In k' restored_fields
    /\ contains_key k' (elements x) = false
    /\ for_each_file env root path (Some t) names idx [filename] problematic w
       = ((problematic
           ++ [(path_join root filename ++ ": "
                ++ exc_text env (KeyError k'))%string])%list,
          logging ERROR ("Error processing file " ++ path_join root filename
                         ++ ": " ++ exc_text env (KeyError k'))
            (logging ERROR ("Failed to anonymize DICOM: "
                            ++ exc_text env (KeyError k')) w)).
Proof.
  intros Hread Hex Hk Habs.
  assert (Hbody : exists k' d',
             first_missing x = Some k'
             /\ In k' restored_fields
             /\ contains_key k' (elements x) = false
             /\ anonymise_body x sex age (t ++ raw ++ "M")
                = Raised (KeyError k') d').
  { rewrite anonymise_body_cases. unfold first_missing.
    cbn [find restored_fields].
    destruct (contains_key "PatientSex" (elements x)) eqn:E1;
      [destruct (contains_key "PatientAge" (elements x)) eqn:E2;
       [destruct (contains_key "PatientID" (elements x)) eqn:E3|]|];
      cbn [negb].
    - exfalso. cbn in Hk. destruct Hk as [<- | [<- | [<- | []]]]; congruence.
    - exists "PatientID". eexists.
      split; [reflexivity|]. split; [in_list|]. split; [exact E3|reflexivity].
    - exists "PatientAge". eexists.
      split; [reflexivity|]. split; [in_list|]. split; [exact E2|reflexivity].
    - exists "PatientSex". eexists.
      split; [reflexivity|]. split; [in_list|]. split; [exact E1|reflexivity]. }
  destruct Hbody as (k' & d' & Hfirst & Hk' & Habs' & Hbody).
  exists k'. split; [exact Hfirst|]. split; [exact Hk'|]. split; [exact Habs'|].
  cbn [for_each_file].
  unfold process_file at 1, bind, of_result, anonymise_step, anonymise.
  now rewrite Hread, Hex, Hbody.
Qed.

Lemma missing_field_is_logged_twice_sample :
  exists w',
    for_each_file sample_env_without_sex sample_root "/data"
      (Some "250419094338") (names_of 1) 0 ["a.dcm"] [] initial_world
    = ([path_join sample_root "a.dcm" ++ ": PatientSex"], w')
    /\ log w'
       = [(ERROR, "Failed to anonymize DICOM: PatientSex");
          (ERROR, "Error processing file " ++ path_join sample_root "a.dcm"
                  ++ ": PatientSex")]
    /\ dirs w' = [] /\ written w' = [].
Proof.
  destruct (missing_field_is_logged_twice sample_env_without_sex sample_root
              "/data" "250419094338" (names_of 1) 0 "a.dcm" [] initial_world
              record_without_sex "12" "F" "034" "PatientSex")
    as (k' & Hfirst & _ & _ & Hrun); try reflexivity; [in_list|].
  injection Hfirst as <-.
  eexists. split; [exact Hrun|]. cbn. auto.
Defined.

(** X21.  A file that fails adds no file written in full.  When it is the
    writing that fails, the output directory has already been created and
    stays; the destination is left behind as an incomplete file if it had
    been opened, and not at all otherwise. *)
Theorem write_error_leaves_directory (env : Env) (root path : string)
    (date_time : option string) (names : list string) (idx : nat)
    (filename : string) (w : World) :
  (forall e w',
      process_file env root path date_time names idx filename w = (inl e, w') ->
      written w' = written w)
  /\ (forall t x raw sex age d' save_to name e opened,
        date_time = Some t ->
        dcmread env w (path_join root filename) = inr x ->
        extract_id_sex_age (path_join root filename) = inr (raw, sex, age) ->
        anonymise_body x sex age (t ++ raw ++ "M") = Returned d' ->
        save_to_of env path (path_join root filename) raw (t ++ raw ++ "M")
        = inr save_to ->
        makedirs_error env w save_to = None ->
        nth_error names idx = Some name ->
        save_error env (add_dir save_to w)
          (path_join save_to ("EXP" ++ name ++ ".dcm")) d' = Some (e, opened) ->
        process_file env root path date_time names idx filename w
        = (inl e,
           if opened
           then add_incomplete (path_join save_to ("EXP" ++ name ++ ".dcm"))
                  (add_dir save_to w)
           else add_dir save_to w)).
Proof.
  split.
  - intros e w' H. now apply process_file_raises in H.
  - intros t x raw sex age d' save_to name e opened
      -> Hread Hex Hbody Hst Hmk Hname Hsv.
    unfold process_file, bind, of_result, anonymise_step, anonymise, makedirs,
      save_as.
    now rewrite Hread, Hex, Hbody, Hst, Hmk, Hname, Hsv.
Qed.

Lemma write_error_leaves_directory_sample :
  (exists w',
      process_file sample_env_read_only sample_root "/data"
        (Some "250419094338") (names_of 1) 0 "a.dcm" initial_world
      = (inl (LibraryError "[Errno 30] Read-only file system"), w')
      /\ dirs w' = ["Anonymised/0001/25041909433812M F 034/T2_AX_1/"]
      /\ written w' = [] /\ incomplete w' = [])
  /\ (exists w',
        process_file sample_env_disk_full sample_root "/data"
          (Some "250419094338") (names_of 1) 0 "a.dcm" initial_world
        = (inl (LibraryError "[Errno 28] No space left on device"), w')
        /\ dirs w' = ["Anonymised/0001/25041909433812M F 034/T2_AX_1/"]
        /\ written w' = []
        /\ incomplete w'
           = ["Anonymised/0001/25041909433812M F 034/T2_AX_1/EXP0000.dcm"]).
Proof.
  split.
  - eexists. split.
    + apply (proj2 (write_error_leaves_directory sample_env_read_only
                      sample_root "/data" (Some "250419094338") (names_of 1) 0
                      "a.dcm" initial_world)
               "250419094338" sample_record "12" "F" "034"
               (outcome_record (anonymise_body sample_record "F" "034"
                                  "25041909433812M"))
               "Anonymised/0001/25041909433812M F 034/T2_AX_1/" "0000" _ false);
        reflexivity.
    + repeat split.
  - eexists. split.
    + apply (proj2 (write_error_leaves_directory sample_env_disk_full
                      sample_root "/data" (Some "250419094338") (names_of 1) 0
                      "a.dcm" initial_world)
               "250419094338" sample_record "12" "F" "034"
               (outcome_record (anonymise_body sample_record "F" "034"
                                  "25041909433812M"))
               "Anonymised/0001/25041909433812M F 034/T2_AX_1/" "0000" _ true);
        reflexivity.
    + repeat split.
Defined.

(** ** The reports of the driver *)

Lemma aggregate_from (results : list (list string * list string)) :
  forall acc,
    fold_left (fun acc r => (fst acc ++ fst r, snd acc ++ snd r)%list)
      results acc
    = ((fst acc ++ List.concat (map fst results))%list,
       (snd acc ++ List.concat (map snd results))%list).
Proof.
  induction results as [|r results IH]; intros [p e]; cbn [fold_left map List.concat fst snd].
  - now rewrite !app_nil_r.
  - rewrite IH. cbn [fst snd]. now rewrite <- !app_assoc.
Qed.

(** X22.  The two reports of [main] are the failure lists, respectively the
    empty-directory lists, of the sessions one after the other in the order
    of the work list: no entry is lost, added or moved. *)
Theorem aggregate_concatenates (results : list (list string * list string)) :
  aggregate results = (List.concat (map fst results), List.concat (map snd results))
  /\ List.length (fst (aggregate results))
     = list_sum (map (fun r => List.length (fst r)) results)
  /\ List.length (snd (aggregate results))
     = list_sum (map (fun r => List.length (snd r)) results).
Proof.
  assert (H : aggregate results
              = (List.concat (map fst results), List.concat (map snd results))).
  { unfold aggregate. rewrite aggregate_from. reflexivity. }
  rewrite H. cbn [fst snd]. split; [reflexivity|].
  split; rewrite length_concat, map_map; reflexivity.
Qed.

(** ** The indices of the written files when files fail *)



